(** * E2EE relay server (Index.js): key directory, connection registry,
      relay protocol and heartbeat.

    A shallow embedding of the handlers of [src/Index.js] and the properties
    of the connection registry and relay protocol that follow from them.

    Conventions of the embedding:
    - a JavaScript value produced by [JSON.parse] is a [jsval]; objects and
      arrays carry the address of their allocation, since the [Map] that
      holds the registry compares object keys by identity;
    - [undefined] is [None] of an [option jsval];
    - a WebSocket is named by a number, its fields live in a heap of
      connection records, and [===] on sockets is equality of the names;
    - a call [ws.send(JSON.stringify(o))] is recorded as the effect
      [Send ws o], the frame being the object literal handed to the
      serializer; [wire] gives the value that the serializer writes for a
      parsed value;
    - console output is not recorded, but the conversion of [userId] to a
      string inside the template literals of [console.log] is, since it can
      throw. *)

From Stdlib Require Import ZArith Floats.SpecFloat.
From stdpp Require Import base option list gmap strings.

Local Open Scope string_scope.
Local Open Scope list_scope.
Local Set Warnings "-register-all".

(* ===================================================================== *)
(** ** JavaScript values *)

Module JS.

(** Values built by [JSON.parse]. Numbers are binary64 values. *)
Inductive jsval : Type :=
  | JNull
  | JBool (b : bool)
  | JNum (x : spec_float)
  | JStr (s : string)
  | JArr (addr : nat) (elems : list jsval)
  | JObj (addr : nat) (props : list (string * jsval)).

(** ToBoolean. *)
Definition truthy (v : jsval) : bool :=
  match v with
  | JNull => false
  | JBool b => b
  | JNum (S754_zero _) => false
  | JNum S754_nan => false
  | JNum _ => true
  | JStr s => negb (String.eqb s "")
  | JArr _ _ => true
  | JObj _ _ => true
  end.

(** ToBoolean of a value that may be [undefined]. *)
Definition truthy_opt (o : option jsval) : bool :=
  match o with
  | Some v => truthy v
  | None => false
  end.

(** SameValueZero on numbers in canonical form (a binary64 value has one
    canonical representation): the two zeros are the same, NaN is the same
    as NaN. *)
Definition same_number (x y : spec_float) : bool :=
  match x, y with
  | S754_zero _, S754_zero _ => true
  | S754_nan, S754_nan => true
  | S754_infinity s, S754_infinity t => Bool.eqb s t
  | S754_finite s m e, S754_finite t n f =>
      Bool.eqb s t && Pos.eqb m n && Z.eqb e f
  | _, _ => false
  end.

(** SameValueZero, the key comparison of [Map]: primitives by value, objects
    and arrays by identity. *)
Definition same_value_zero (a b : jsval) : bool :=
  match a, b with
  | JNull, JNull => true
  | JBool x, JBool y => Bool.eqb x y
  | JNum x, JNum y => same_number x y
  | JStr x, JStr y => String.eqb x y
  | JArr x _, JArr y _ => Nat.eqb x y
  | JObj x _, JObj y _ => Nat.eqb x y
  | _, _ => false
  end.

(** ToString of a parsed value throws (as in a template literal
    [`${v}`]): an object throws exactly when it has an own property
    [toString], which hides the inherited method and is never callable in
    parsed JSON, so that no conversion method yields a primitive; an array
    joins the conversions of its elements; a primitive never throws. *)
Fixpoint to_string_throws (v : jsval) : bool :=
  match v with
  | JArr _ elems => existsb to_string_throws elems
  | JObj _ props => existsb (fun kv => String.eqb kv.1 "toString") props
  | _ => false
  end.

(** The value that the text [JSON.stringify(v)] denotes, for a parsed value
    [v]: an infinite number (the parse of [1e999]) and NaN are written as
    [null], negative zero as [0]; every other number, every string, boolean
    and [null] is written as it is, arrays element by element and objects
    property by property. *)
Fixpoint wire (v : jsval) : jsval :=
  match v with
  | JNum (S754_infinity _) => JNull
  | JNum S754_nan => JNull
  | JNum (S754_zero _) => JNum (S754_zero false)
  | JArr addr elems => JArr addr (map wire elems)
  | JObj addr props => JObj addr (map (fun kv => (kv.1, wire kv.2)) props)
  | _ => v
  end.

(** No infinite number, NaN or negative zero occurs in the value. *)
Fixpoint plain (v : jsval) : bool :=
  match v with
  | JNum (S754_infinity _) => false
  | JNum S754_nan => false
  | JNum (S754_zero sign) => negb sign
  | JArr _ elems => forallb plain elems
  | JObj _ props => forallb (fun kv => plain kv.2) props
  | _ => true
  end.

(** [v === 'lit'] for a value that may be [undefined]. *)
Definition is_string (o : option jsval) (lit : string) : bool :=
  match o with
  | Some (JStr s) => String.eqb s lit
  | _ => false
  end.

(** Own property lookup in the property list of an object. *)
Fixpoint own_prop (props : list (string * jsval)) (name : string)
  : option jsval :=
  match props with
  | [] => None
  | (k, v) :: rest => if String.eqb k name then Some v else own_prop rest name
  end.

(** Errors thrown inside the message handler. *)
Inductive js_error : Type :=
  | SyntaxError
  | TypeError.

(** Completion of an evaluation: a value or a thrown error. *)
Inductive completion (A : Type) : Type :=
  | Normal (a : A)
  | Throw (e : js_error).
Arguments Normal {A} a.
Arguments Throw {A} e.

#[export] Instance completion_ret : MRet completion := fun A a => Normal a.
#[export] Instance completion_bind : MBind completion := fun A B k c =>
  match c with
  | Normal a => k a
  | Throw e => Throw e
  end.

(** [msg.name] for the properties the handler reads ([type], [userId], [to],
    [payload]): reading a property of [null] throws; an object yields its own
    property; strings, numbers, booleans and arrays define none of these
    names, neither do [Object.prototype] and [Array.prototype]. *)
Definition get_field (msg : jsval) (name : string)
  : completion (option jsval) :=
  match msg with
  | JNull => Throw TypeError
  | JObj _ props => Normal (own_prop props name)
  | _ => Normal None
  end.

End JS.
Export JS.


(* ===================================================================== *)
(** ** The [Map] holding the connection registry *)

Module JsMap.

(** A [Map] as the list of its entries in insertion order, keys compared
    with SameValueZero. *)
Definition t (V : Type) : Type := list (jsval * V).

(** [new Map()] *)
Definition empty {V} : t V := [].

(** [m.get(k)] *)
Fixpoint get {V} (m : t V) (k : jsval) : option V :=
  match m with
  | [] => None
  | (k', v) :: rest => if same_value_zero k' k then Some v else get rest k
  end.

(** [m.set(k, v)]: the value of an existing entry is replaced in place, a
    new entry goes to the end. *)
Fixpoint set {V} (m : t V) (k : jsval) (v : V) : t V :=
  match m with
  | [] => [(k, v)]
  | (k', v') :: rest =>
      if same_value_zero k' k then (k', v) :: rest
      else (k', v') :: set rest k v
  end.

(** [m.delete(k)]: no entry with the key [k] is left. *)
Fixpoint delete {V} (m : t V) (k : jsval) : t V :=
  match m with
  | [] => []
  | (k', v') :: rest =>
      if same_value_zero k' k then delete rest k
      else (k', v') :: delete rest k
  end.

(** The keys of the entries. *)
Definition keys {V} (m : t V) : list jsval := m.*1.

End JsMap.

(* ===================================================================== *)
(** ** Key directory: the HTTP handlers over [publicKeys] *)

Module KeyDirectory.

(** Names that every plain object inherits from [Object.prototype]. *)
Definition object_prototype_names : list string :=
  [ "constructor"; "__defineGetter__"; "__defineSetter__"; "hasOwnProperty";
    "__lookupGetter__"; "__lookupSetter__"; "isPrototypeOf";
    "propertyIsEnumerable"; "toString"; "valueOf"; "__proto__";
    "toLocaleString" ].

Definition inherited (name : string) : bool :=
  bool_decide (name ∈ object_prototype_names).

(** [publicKeys = {}]: a plain object, given by its own properties; its
    prototype is [Object.prototype]. The values are the strings that
    [POST /register] stores when the request body has the shape documented
    in the source, [{ userId: string, publicKey: base64String }]. The
    handler checks no types: a body with other JSON values is outside of
    this model (an object under the userId [__proto__] replaces the
    prototype of [publicKeys]), and the properties below say so where they
    depend on it. *)
Abbreviation store := (gmap string string).

Definition publicKeys_init : store := ∅.

(** What a property read [publicKeys[name]] evaluates to. *)
Inductive prop_value : Type :=
  | OwnValue (s : string)         (* an own property, a stored string *)
  | Builtin (name : string).      (* a member of [Object.prototype] *)

(** [publicKeys[name]]: own property first, then the prototype. *)
Definition read (pk : store) (name : string) : option prop_value :=
  match pk !! name with
  | Some s => Some (OwnValue s)
  | None => if inherited name then Some (Builtin name) else None
  end.

(** [publicKeys[name] = value] for a string [value], on a [publicKeys]
    whose prototype is [Object.prototype]: the assignment to [__proto__]
    reaches the setter of [Object.prototype], which ignores a value that is
    not an object; any other name becomes an own property. *)
Definition write (pk : store) (name value : string) : store :=
  if String.eqb name "__proto__" then pk else <[name := value]> pk.

(** ToBoolean of a string that may be [undefined]. *)
Definition present (o : option string) : bool :=
  match o with
  | Some s => negb (String.eqb s "")
  | None => false
  end.

(** ToBoolean of the result of a property read: inherited members are
    functions or objects. *)
Definition found (o : option prop_value) : bool :=
  match o with
  | Some (OwnValue s) => negb (String.eqb s "")
  | Some (Builtin _) => true
  | None => false
  end.

(** The object handed to [res.json]. *)
Inductive body : Type :=
  | ErrorBody (error : string)
  | OkBody
  | KeyBody (userId : string) (publicKey : prop_value).

Record response : Type := { status : nat; json : body }.

(** The JSON body of a register request whose fields, where present, are
    strings. *)
Record register_body : Type :=
  { req_userId : option string; req_publicKey : option string }.

(** [app.post('/register', ...)] *)
Definition post_register (req : register_body) (pk : store)
  : store * response :=
  if negb (present (req_userId req)) || negb (present (req_publicKey req))
  then (pk, {| status := 400; json := ErrorBody "userId and publicKey required" |})
  else
    match req_userId req, req_publicKey req with
    | Some userId, Some publicKey =>
        (write pk userId publicKey, {| status := 200; json := OkBody |})
    | _, _ => (pk, {| status := 400; json := ErrorBody "userId and publicKey required" |})
    end.

(** [app.get('/keys/:userId', ...)] *)
Definition get_key (userId : string) (pk : store) : response :=
  let k := read pk userId in
  if negb (found k) then {| status := 404; json := ErrorBody "not found" |}
  else
    match k with
    | Some v => {| status := 200; json := KeyBody userId v |}
    | None => {| status := 404; json := ErrorBody "not found" |}
    end.

(** The store after a sequence of register requests. *)
Definition register_all (reqs : list register_body) (pk : store) : store :=
  foldl (fun acc req => (post_register req acc).1) pk reqs.

(** The answer of [GET /keys]. *)
Record listing : Type := { listing_status : nat; listing_json : store }.

(** [app.get('/keys', ...)]: [res.json(publicKeys)] serializes the own
    properties of the object, not the inherited ones. *)
Definition get_keys (pk : store) : listing :=
  {| listing_status := 200; listing_json := pk |}.

(** The body [{ userId, publicKey }] of a register request. *)
Definition register_req (userId publicKey : string) : register_body :=
  {| req_userId := Some userId; req_publicKey := Some publicKey |}.

End KeyDirectory.

(* ===================================================================== *)
(** ** Relay: sockets, the registry [clients], the handlers *)

Module Relay.

(** [readyState] of a WebSocket. *)
Inductive ready_state : Type :=
  | CONNECTING
  | OPEN
  | CLOSING
  | CLOSED.

#[export] Instance ready_state_eq_dec : EqDecision ready_state.
Proof. solve_decision. Defined.

(** What the program keeps per connection: the fields [readyState] and
    [isAlive] of the socket, and the variable [userId] of the closure created
    by the connection handler ([None] is [null]). *)
Record connection : Type := {
  readyState : ready_state;
  isAlive : bool;
  userId : option jsval
}.

Definition set_readyState (r : ready_state) (c : connection) : connection :=
  {| readyState := r; isAlive := isAlive c; userId := userId c |}.
Definition set_isAlive (b : bool) (c : connection) : connection :=
  {| readyState := readyState c; isAlive := b; userId := userId c |}.
Definition set_userId (u : option jsval) (c : connection) : connection :=
  {| readyState := readyState c; isAlive := isAlive c; userId := u |}.

(** The state of the server process: the registry [clients] (userId to
    socket), the set [wss.clients] in insertion order, the heap of
    connections, and the name the next accepted socket gets. *)
Record server : Type := {
  clients : JsMap.t nat;
  wss_clients : list nat;
  sockets : gmap nat connection;
  next_socket : nat
}.

Definition with_clients (m : JsMap.t nat) (s : server) : server :=
  {| clients := m; wss_clients := wss_clients s;
     sockets := sockets s; next_socket := next_socket s |}.
Definition with_sockets (h : gmap nat connection) (s : server) : server :=
  {| clients := clients s; wss_clients := wss_clients s;
     sockets := h; next_socket := next_socket s |}.
Definition with_wss_clients (l : list nat) (s : server) : server :=
  {| clients := clients s; wss_clients := l;
     sockets := sockets s; next_socket := next_socket s |}.

(** The server at start-up. *)
Definition init : server :=
  {| clients := JsMap.empty; wss_clients := []; sockets := ∅;
     next_socket := 0 |}.

(** The object literal of an outbound frame, as handed to
    [JSON.stringify]. *)
Inductive frame : Type :=
  | Error (message : string)
  | Identified (userId : jsval)
  | Message (payload : jsval)
  | Sent (to : jsval)
  | Offline (to : jsval)
  | PongFrame.

(** Calls into the WebSocket library, and exceptions that no handler of the
    program catches. *)
Inductive effect : Type :=
  | Send (ws : nat) (f : frame)
  | Ping (ws : nat)
  | Terminate (ws : nat)
  | Uncaught (e : js_error).   (* an exception leaves a listener uncaught *)

(** A value when it is truthy. *)
Definition if_truthy (o : option jsval) : option jsval :=
  match o with
  | Some v => if truthy v then Some v else None
  | None => None
  end.

(** [dest.readyState === WebSocket.OPEN] *)
Definition is_open (s : server) (dest : nat) : bool :=
  match sockets s !! dest with
  | Some c => bool_decide (readyState c = OPEN)
  | None => false
  end.

(** The variable [userId] of the closure of [ws]. *)
Definition userId_of (s : server) (ws : nat) : option jsval :=
  sockets s !! ws ≫= userId.

(** The [identify] branch once [msg.userId] is known to be truthy:
    [userId = msg.userId; clients.set(userId, ws)], then the template
    literal of [console.log(`User connected: ${userId}`)] converts [userId]
    to a string. When the conversion throws, control is in the [catch]
    block with both assignments done, and the answer is the error frame;
    otherwise [ws.send(identified)] runs. *)
Definition do_identify (ws : nat) (u : jsval) (s : server)
  : server * list effect :=
  (with_clients (JsMap.set (clients s) u ws)
     (with_sockets (alter (set_userId (Some u)) ws (sockets s)) s),
   [Send ws (if to_string_throws u then Error "invalid JSON"
             else Identified u)]).

(** The [send] branch once [to] and [payload] are known to be truthy. *)
Definition do_send (ws : nat) (to payload : jsval) (s : server)
  : server * list effect :=
  match JsMap.get (clients s) to with
  | Some dest =>
      if is_open s dest
      then (s, [Send dest (Message payload); Send ws (Sent to)])
      else (s, [Send ws (Offline to)])
  | None => (s, [Send ws (Offline to)])
  end.

(** The body of the [try] block after [JSON.parse]. *)
Definition try_body (ws : nat) (msg : jsval) (s : server)
  : completion (server * list effect) :=
  ty ← get_field msg "type";
  if is_string ty "identify" then
    uid ← get_field msg "userId";
    match if_truthy uid with
    | None => mret (s, [Send ws (Error "identify requires userId")])
    | Some u => mret (do_identify ws u s)
    end
  else if is_string ty "send" then
    to ← get_field msg "to";
    payload ← get_field msg "payload";
    match if_truthy to, if_truthy payload with
    | Some t, Some p => mret (do_send ws t p s)
    | _, _ => mret (s, [Send ws (Error "send requires to and payload")])
    end
  else if is_string ty "ping" then
    mret (s, [Send ws PongFrame])
  else
    mret (s, [Send ws (Error "unknown message type")]).

(** [ws.on('message', ...)] given the completion of
    [JSON.parse(data.toString())]: the [try] block and its [catch]. *)
Definition on_frame (ws : nat) (parsed : completion jsval) (s : server)
  : server * list effect :=
  match parsed ≫= (fun msg => try_body ws msg s) with
  | Normal r => r
  | Throw _ => (s, [Send ws (Error "invalid JSON")])
  end.

Section Parser.
(** [JSON.parse(data.toString())] of the runtime. *)
Variable JSON_parse : string -> completion jsval.

(** [ws.on('message', (data) => ...)] *)
Definition on_message (ws : nat) (data : string) (s : server)
  : server * list effect :=
  on_frame ws (JSON_parse data) s.
End Parser.

(** [wss.on('connection', (ws, req) => ...)]: the library has put the open
    socket into [wss.clients]; the handler sets [userId = null] and
    [ws.isAlive = true]. *)
Definition on_connection (s : server) : server :=
  let ws := next_socket s in
  {| clients := clients s;
     wss_clients := wss_clients s ++ [ws];
     sockets := <[ws := {| readyState := OPEN; isAlive := true;
                           userId := None |}]> (sockets s);
     next_socket := S ws |}.

(** [ws.on('pong', () => { ws.isAlive = true; })] *)
Definition on_pong (ws : nat) (s : server) : server :=
  with_sockets (alter (set_isAlive true) ws (sockets s)) s.

(** [ws.on('close', ...)]: the guarded unregister. *)
Definition on_close (ws : nat) (s : server) : server :=
  match if_truthy (userId_of s ws) with
  | Some u =>
      if bool_decide (JsMap.get (clients s) u = Some ws)
      then with_clients (JsMap.delete (clients s) u) s
      else s
  | None => s
  end.

(** The template literal of [console.log(`User disconnected: ${userId}`)]
    in the close handler, which runs after [clients.delete]: when the
    conversion of [userId] throws, the exception leaves the listener, and
    nothing in the program catches it. *)
Definition on_close_log (ws : nat) (s : server) : list effect :=
  match if_truthy (userId_of s ws) with
  | Some u =>
      if bool_decide (JsMap.get (clients s) u = Some ws)
      then (if to_string_throws u then [Uncaught TypeError] else [])
      else []
  | None => []
  end.

(** What the library does when the transport of [ws] has closed, before the
    close handler runs: [readyState] becomes [CLOSED] and the socket leaves
    [wss.clients]. *)
Definition transport_closed (ws : nat) (s : server) : server :=
  with_wss_clients (filter (fun c => c ≠ ws) (wss_clients s))
    (with_sockets (alter (set_readyState CLOSED) ws (sockets s)) s).

(** [ws.terminate()] of the library: the socket is destroyed and, unless it
    was closed already, is [CLOSING] until its close event. *)
Definition terminate (ws : nat) (s : server) : server :=
  with_sockets
    (alter (fun c => if bool_decide (readyState c = CLOSED) then c
                     else set_readyState CLOSING c) ws (sockets s)) s.

(** The callback of [wss.clients.forEach] in the heartbeat. *)
Definition heartbeat_visit (acc : server * list effect) (ws : nat)
  : server * list effect :=
  let '(s, out) := acc in
  match sockets s !! ws with
  | Some c =>
      if negb (isAlive c) then (terminate ws s, out ++ [Terminate ws])
      else (with_sockets (<[ws := set_isAlive false c]> (sockets s)) s,
            out ++ [Ping ws])
  | None => (s, out)
  end.

(** One run of the [setInterval] callback. *)
Definition heartbeat (s : server) : server * list effect :=
  foldl heartbeat_visit (s, []) (wss_clients s).

(** What happens to the server. *)
Inductive event : Type :=
  | Connection                                  (* a client connected *)
  | Frame (ws : nat) (parsed : completion jsval) (* a message arrived *)
  | Pong (ws : nat)                             (* a pong arrived *)
  | Close (ws : nat)                            (* a transport closed *)
  | Tick.                                       (* the interval fired *)

Definition step (e : event) (s : server) : server * list effect :=
  match e with
  | Connection => (on_connection s, [])
  | Frame ws parsed => on_frame ws parsed s
  | Pong ws => (on_pong ws s, [])
  | Close ws =>
      let s' := transport_closed ws s in (on_close ws s', on_close_log ws s')
  | Tick => heartbeat s
  end.

(** The server after a sequence of events, with the calls it made. *)
Fixpoint run (evs : list event) (s : server) : server * list effect :=
  match evs with
  | [] => (s, [])
  | e :: rest =>
      let '(s1, out1) := step e s in
      let '(s2, out2) := run rest s1 in
      (s2, out1 ++ out2)
  end.

(** States the server can be in: those a sequence of events leads to. *)
Definition reachable (s : server) : Prop :=
  exists evs, (run evs init).1 = s.

(** The frame [{ type: 'identify', userId: u }] as parsed. *)
Definition identify_msg (addr : nat) (u : jsval) : jsval :=
  JObj addr [("type", JStr "identify"); ("userId", u)].

(** The frame [{ type: 'send', to: t, payload: p }] as parsed. *)
Definition send_msg (addr : nat) (t p : jsval) : jsval :=
  JObj addr [("type", JStr "send"); ("to", t); ("payload", p)].

(** Invariant of the reachable states: the registry has truthy keys only, a
    connection's [userId] is [null] or truthy, every socket was named before
    [next_socket], and [wss.clients] is a set of existing sockets. *)
Record wf (s : server) : Prop := {
  wf_keys : Forall (fun k => truthy k = true) (JsMap.keys (clients s));
  wf_userId : forall ws c u,
    sockets s !! ws = Some c -> userId c = Some u -> truthy u = true;
  wf_fresh : forall ws, is_Some (sockets s !! ws) -> ws < next_socket s;
  wf_nodup : NoDup (wss_clients s);
  wf_live : forall ws, ws ∈ wss_clients s -> is_Some (sockets s !! ws)
}.

(** The second state differs from the first in [readyState] and [isAlive]
    of sockets at most. *)
Definition same_identity (s s' : server) : Prop :=
  clients s' = clients s /\
  wss_clients s' = wss_clients s /\
  next_socket s' = next_socket s /\
  forall ws, userId <$> sockets s' !! ws = userId <$> sockets s !! ws.

(** [msg] is a frame [identify{userId: u}]. *)
Definition identify_frame (msg u : jsval) : Prop :=
  get_field msg "type" = Normal (Some (JStr "identify")) /\
  get_field msg "userId" = Normal (Some u).

(** [msg] is a frame [send{to: t, payload: p}]. *)
Definition send_frame (msg t p : jsval) : Prop :=
  get_field msg "type" = Normal (Some (JStr "send")) /\
  get_field msg "to" = Normal (Some t) /\
  get_field msg "payload" = Normal (Some p).

(** The event [e] can take the entry of [u] away from socket [ws]: [ws]
    closes, or another socket identifies under the same key. *)
Definition disturbs (ws : nat) (u : jsval) (e : event) : bool :=
  match e with
  | Close ws' => bool_decide (ws' = ws)
  | Frame ws' (Normal msg) =>
      match get_field msg "type", get_field msg "userId" with
      | Normal ty, Normal (Some v) =>
          bool_decide (ws' <> ws) && is_string ty "identify" &&
          truthy v && same_value_zero v u
      | _, _ => false
      end
  | _ => false
  end.

(** The event is neither a response of [ws], nor its close, nor a tick. *)
Definition silent (ws : nat) (e : event) : bool :=
  match e with
  | Pong ws' => bool_decide (ws' <> ws)
  | Close ws' => bool_decide (ws' <> ws)
  | Tick => false
  | _ => true
  end.

(** A stand-in for [JSON.parse] that knows the three literal names and
    rejects every other text; used to run [on_message] on concrete data. *)
Definition parse_literal_name (data : string) : completion jsval :=
  if String.eqb data "null" then Normal JNull
  else if String.eqb data "true" then Normal (JBool true)
  else if String.eqb data "false" then Normal (JBool false)
  else Throw SyntaxError.

(** Two clients are connected, the second one identified as [bob]. *)
Definition bob_online : server :=
  (run [Connection; Connection;
        Frame 1 (Normal (identify_msg 7 (JStr "bob")))] init).1.


(** One client is connected and has identified as [alice], then as [bob]. *)
Definition alice_then_bob : server :=
  (run [Connection;
        Frame 0 (Normal (identify_msg 7 (JStr "alice")));
        Frame 0 (Normal (identify_msg 8 (JStr "bob")))] init).1.

(** The event is neither the close of [ws] nor a tick: [ws] stays as open
    as it is. *)
Definition steady (ws : nat) (e : event) : bool :=
  match e with
  | Close ws' => bool_decide (ws' <> ws)
  | Tick => false
  | _ => true
  end.

(** A frame that reports to the sender of a request (any frame but
    [message]). *)
Definition is_status (f : frame) : bool :=
  match f with
  | Message _ => false
  | _ => true
  end.

(** What one sweep of the heartbeat does to socket [ws], read off the state
    at the start of the sweep. *)
Definition heartbeat_call (s : server) (ws : nat) : list effect :=
  match sockets s !! ws with
  | Some c => if isAlive c then [Ping ws] else [Terminate ws]
  | None => []
  end.

(** The event can happen in state [s]: frames, pongs and the close event
    come from sockets that are in [wss.clients], that is, connected and not
    yet closed. *)
Definition admissible (s : server) (e : event) : bool :=
  match e with
  | Frame ws _ => bool_decide (ws ∈ wss_clients s)
  | Pong ws => bool_decide (ws ∈ wss_clients s)
  | Close ws => bool_decide (ws ∈ wss_clients s)
  | _ => true
  end.

(** Every event of the sequence can happen in the state it meets. *)
Fixpoint admissible_run (evs : list event) (s : server) : bool :=
  match evs with
  | [] => true
  | e :: rest => admissible s e && admissible_run rest (step e s).1
  end.

(** States that a sequence of admissible events leads to. *)
Definition live_reachable (s : server) : Prop :=
  exists evs, admissible_run evs init = true /\ (run evs init).1 = s.

(** What [JSON.stringify] writes for a frame: the fields that carry parsed
    values are written as [wire] says. *)
Definition wire_frame (f : frame) : frame :=
  match f with
  | Error message => Error message
  | Identified u => Identified (wire u)
  | Message payload => Message (wire payload)
  | Sent to => Sent (wire to)
  | Offline to => Offline (wire to)
  | PongFrame => PongFrame
  end.

(** The sockets on which the calls invoke [terminate]. *)
Definition terminated (out : list effect) : list nat :=
  omap (fun e => match e with
                 | Terminate ws => Some ws
                 | _ => None
                 end) out.

(** The close events that the library emits for the sockets terminated by
    the calls: [terminate] destroys the transport, and the socket emits
    [close] once its transport has closed. *)
Definition closes_after (out : list effect) : list event :=
  map Close (terminated out).

(** The frames of the form [message{...}] among the calls. *)
Definition deliveries (out : list effect) : list (nat * jsval) :=
  omap (fun e => match e with
                 | Send ws (Message p) => Some (ws, p)
                 | _ => None
                 end) out.

End Relay.

(* ===================================================================== *)
(** * Properties *)

Import Relay.

(** ** SameValueZero is an equivalence, and truthiness respects it *)

Lemma same_number_refl x : same_number x x = true.
Proof.
  destruct x as [s|s| |s m e]; simpl; auto.
  - by destruct s.
  - rewrite Pos.eqb_refl, Z.eqb_refl. by destruct s.
Qed.

Lemma same_number_sym x y : same_number x y = same_number y x.
Proof.
  destruct x as [s|s| |s m e], y as [t|t| |t n f]; simpl; auto.
  - by destruct s, t.
  - rewrite (Pos.eqb_sym m n), (Z.eqb_sym e f). by destruct s, t.
Qed.

Lemma same_number_trans x y z :
  same_number x y = true -> same_number y z = true -> same_number x z = true.
Proof.
  destruct x as [s|s| |s m e], y as [t|t| |t n f], z as [r|r| |r k g];
    simpl; try done.
  - destruct s, t, r; done.
  - rewrite !andb_true_iff.
    intros [[Hs Hm] He] [[Ht Hn] Hf].
    apply Pos.eqb_eq in Hm, Hn. apply Z.eqb_eq in He, Hf. subst.
    rewrite Pos.eqb_refl, Z.eqb_refl. destruct s, t, r; done.
Qed.

Lemma same_value_zero_refl a : same_value_zero a a = true.
Proof.
  destruct a; simpl; auto using same_number_refl, Nat.eqb_refl.
  - by destruct b.
  - apply String.eqb_refl.
Qed.

Lemma same_value_zero_sym a b : same_value_zero a b = same_value_zero b a.
Proof.
  destruct a, b; simpl; auto using same_number_sym, Nat.eqb_sym.
  - by destruct b, b0.
  - apply String.eqb_sym.
Qed.

Lemma same_value_zero_trans a b c :
  same_value_zero a b = true -> same_value_zero b c = true ->
  same_value_zero a c = true.
Proof.
  destruct a, b, c; simpl; try done.
  - destruct b, b0, b1; done.
  - apply same_number_trans.
  - intros H1 H2. apply String.eqb_eq in H1, H2. subst. apply String.eqb_refl.
  - intros H1 H2. apply Nat.eqb_eq in H1, H2. subst. apply Nat.eqb_refl.
  - intros H1 H2. apply Nat.eqb_eq in H1, H2. subst. apply Nat.eqb_refl.
Qed.

Lemma truthy_same_value_zero a b :
  same_value_zero a b = true -> truthy a = truthy b.
Proof.
  destruct a, b; simpl; try done.
  - destruct b, b0; done.
  - destruct x as [s|s| |s m e], x0 as [t|t| |t n f]; simpl; done.
  - intros H. apply String.eqb_eq in H. by subst.
Qed.

(** ** The [Map] *)

Section JsMapFacts.
Context {V : Type}.
Implicit Types (m : JsMap.t V) (k : jsval) (v : V).

Lemma get_set_same m k v : JsMap.get (JsMap.set m k v) k = Some v.
Proof.
  induction m as [|[k' v'] m IH]; simpl.
  - by rewrite same_value_zero_refl.
  - destruct (same_value_zero k' k) eqn:E; simpl; by rewrite E.
Qed.

Lemma get_set_other m k k' v :
  same_value_zero k k' = false ->
  JsMap.get (JsMap.set m k v) k' = JsMap.get m k'.
Proof.
  intros Hk. induction m as [|[k0 v0] m IH]; simpl.
  - by rewrite Hk.
  - destruct (same_value_zero k0 k) eqn:E; simpl.
    + destruct (same_value_zero k0 k') eqn:E'; [|done].
      rewrite same_value_zero_sym in E.
      by rewrite (same_value_zero_trans _ _ _ E E') in Hk.
    + by rewrite IH.
Qed.

Lemma get_delete_same m k : JsMap.get (JsMap.delete m k) k = None.
Proof.
  induction m as [|[k' v'] m IH]; simpl; [done|].
  destruct (same_value_zero k' k) eqn:E; simpl; [done|]. by rewrite E.
Qed.

Lemma get_delete_other m k k' :
  same_value_zero k k' = false ->
  JsMap.get (JsMap.delete m k) k' = JsMap.get m k'.
Proof.
  intros Hk. induction m as [|[k0 v0] m IH]; simpl; [done|].
  destruct (same_value_zero k0 k) eqn:E; simpl.
  - destruct (same_value_zero k0 k') eqn:E'; [|done].
    rewrite same_value_zero_sym in E.
    by rewrite (same_value_zero_trans _ _ _ E E') in Hk.
  - by rewrite IH.
Qed.

Lemma get_Some_key m k v :
  JsMap.get m k = Some v ->
  exists k', k' ∈ JsMap.keys m /\ same_value_zero k' k = true.
Proof.
  unfold JsMap.keys. induction m as [|[k0 v0] m IH]; simpl; [done|].
  destruct (same_value_zero k0 k) eqn:E.
  - intros _. exists k0. split; [left|done].
  - intros H. destruct (IH H) as (k' & Hin & Hk').
    exists k'. split; [by right|done].
Qed.

Lemma keys_set m k v k0 :
  k0 ∈ JsMap.keys (JsMap.set m k v) -> k0 ∈ JsMap.keys m \/ k0 = k.
Proof.
  unfold JsMap.keys. induction m as [|[k' v'] m IH]; simpl.
  - intros ->%list_elem_of_singleton. by right.
  - destruct (same_value_zero k' k); simpl; [by left|].
    intros [->|H]%elem_of_cons; [left; left|].
    destruct (IH H) as [?|?]; [left; by right|by right].
Qed.

Lemma keys_delete m k k0 :
  k0 ∈ JsMap.keys (JsMap.delete m k) -> k0 ∈ JsMap.keys m.
Proof.
  unfold JsMap.keys. induction m as [|[k' v'] m IH]; simpl; [done|].
  destruct (same_value_zero k' k); simpl.
  - intros H. right. by apply IH.
  - intros [->|H]%elem_of_cons; [left|right; by apply IH].
Qed.
End JsMapFacts.

(** ** The message handler, branch by branch *)

Lemma is_string_true o lit :
  is_string o lit = true -> o = Some (JStr lit).
Proof.
  destruct o as [[]|]; simpl; try done.
  intros H. apply String.eqb_eq in H. by subst.
Qed.

Lemma if_truthy_Some o v :
  if_truthy o = Some v <-> o = Some v /\ truthy v = true.
Proof.
  destruct o as [w|]; simpl; [|by split; [|intros []]].
  destruct (truthy w) eqn:E; split.
  - by intros [= <-].
  - by intros [[= <-] _].
  - done.
  - intros [[= <-] Ht]. congruence.
Qed.

Lemma if_truthy_falsy v : truthy v = false -> if_truthy (Some v) = None.
Proof. simpl. by intros ->. Qed.

Lemma on_frame_identify ws msg u s :
  identify_frame msg u -> truthy u = true ->
  on_frame ws (Normal msg) s = do_identify ws u s.
Proof.
  intros [Hty Hu] Ht. unfold on_frame, try_body. simpl.
  rewrite Hty. simpl. rewrite Hu. simpl. by rewrite Ht.
Qed.

Lemma on_frame_send ws msg t p s :
  send_frame msg t p -> truthy t = true -> truthy p = true ->
  on_frame ws (Normal msg) s = do_send ws t p s.
Proof.
  intros (Hty & Hto & Hp) Ht Htp. unfold on_frame, try_body. simpl.
  rewrite Hty. simpl. rewrite Hto. simpl. rewrite Hp. simpl.
  by rewrite Ht, Htp.
Qed.

Lemma on_frame_send_falsy ws msg t p s :
  send_frame msg t p -> truthy t = false \/ truthy p = false ->
  on_frame ws (Normal msg) s
  = (s, [Send ws (Error "send requires to and payload")]).
Proof.
  intros (Hty & Hto & Hp) Hf. unfold on_frame, try_body. simpl.
  rewrite Hty. simpl. rewrite Hto. simpl. rewrite Hp. simpl.
  destruct Hf as [-> | ->]; [done|]. by destruct (truthy t).
Qed.

Lemma do_send_state ws t p s : (do_send ws t p s).1 = s.
Proof.
  unfold do_send. destruct (JsMap.get (clients s) t); [|done].
  by destruct (is_open s n).
Qed.

(** A frame leaves the server as it is, unless it is an [identify] with a
    truthy [userId]. *)
Lemma on_frame_inv ws parsed s :
  (on_frame ws parsed s).1 = s \/
  exists msg u,
    parsed = Normal msg /\ identify_frame msg u /\ truthy u = true /\
    on_frame ws parsed s = do_identify ws u s.
Proof.
  destruct parsed as [msg|e]; [|by left].
  destruct (get_field msg "type") as [ty|e] eqn:Ety;
    [|left; unfold on_frame, try_body; simpl; by rewrite Ety].
  destruct (is_string ty "identify") eqn:Hid.
  - apply is_string_true in Hid. subst ty.
    destruct (get_field msg "userId") as [uid|e] eqn:Euid;
      [|left; unfold on_frame, try_body; simpl; rewrite Ety; simpl;
        by rewrite Euid].
    destruct (if_truthy uid) as [u|] eqn:Eu.
    + apply if_truthy_Some in Eu as [-> Ht]. right. exists msg, u.
      split; [done|]. split; [done|]. split; [done|].
      by apply on_frame_identify.
    + left. unfold on_frame, try_body. simpl. rewrite Ety. simpl.
      rewrite Euid. simpl. by rewrite Eu.
  - left. unfold on_frame, try_body. simpl. rewrite Ety. simpl. rewrite Hid.
    destruct (is_string ty "send"); [|by destruct (is_string ty "ping")].
    destruct (get_field msg "to") as [to|]; simpl; [|done].
    destruct (get_field msg "payload") as [pl|]; simpl; [|done].
    destruct (if_truthy to); [|done]. destruct (if_truthy pl); [|done].
    simpl. apply do_send_state.
Qed.

(** ** States that differ in liveness fields only *)

Lemma same_identity_refl s : same_identity s s.
Proof. by repeat split. Qed.

Lemma same_identity_trans s1 s2 s3 :
  same_identity s1 s2 -> same_identity s2 s3 -> same_identity s1 s3.
Proof.
  intros (Hc & Hw & Hn & Hu) (Hc' & Hw' & Hn' & Hu').
  unfold same_identity. split_and!; [congruence..|].
  intros ws. by rewrite Hu', Hu.
Qed.

Lemma same_identity_alter f ws s :
  (forall c, userId (f c) = userId c) ->
  same_identity s (with_sockets (alter f ws (sockets s)) s).
Proof.
  intros Hf. unfold same_identity. split_and!; [done..|].
  intros ws'. simpl.
  destruct (decide (ws' = ws)) as [->|Hne].
  - rewrite lookup_alter_eq. destruct (sockets s !! ws); simpl; [|done].
    by rewrite Hf.
  - by rewrite lookup_alter_ne.
Qed.

Lemma on_pong_same_identity ws s : same_identity s (on_pong ws s).
Proof. by apply same_identity_alter. Qed.

Lemma terminate_same_identity ws s : same_identity s (terminate ws s).
Proof.
  apply same_identity_alter. intros c.
  by destruct (bool_decide (readyState c = CLOSED)).
Qed.

Lemma heartbeat_visit_same_identity s out ws :
  same_identity s (heartbeat_visit (s, out) ws).1.
Proof.
  unfold heartbeat_visit.
  destruct (sockets s !! ws) as [c|] eqn:Hc; [|apply same_identity_refl].
  destruct (isAlive c); simpl; [|apply terminate_same_identity].
  unfold same_identity. split_and!; [done..|].
  intros ws'. simpl.
  destruct (decide (ws' = ws)) as [->|Hne].
  - by rewrite lookup_insert_eq, Hc.
  - by rewrite lookup_insert_ne.
Qed.

Lemma heartbeat_fold_same_identity l s out :
  same_identity s (foldl heartbeat_visit (s, out) l).1.
Proof.
  revert s out. induction l as [|ws l IH]; intros s out; cbn [foldl].
  - apply same_identity_refl.
  - destruct (heartbeat_visit (s, out) ws) as [s1 out1] eqn:E.
    eapply same_identity_trans; [|apply IH].
    change s1 with (s1, out1).1. rewrite <- E.
    apply heartbeat_visit_same_identity.
Qed.

Lemma heartbeat_same_identity s : same_identity s (heartbeat s).1.
Proof. apply heartbeat_fold_same_identity. Qed.

Lemma same_identity_userId_of s s' ws :
  same_identity s s' -> userId_of s' ws = userId_of s ws.
Proof.
  intros (_ & _ & _ & Hu). unfold userId_of. specialize (Hu ws).
  destruct (sockets s' !! ws), (sockets s !! ws); simpl in *; congruence.
Qed.

(** ** The invariant of the reachable states *)

Lemma same_identity_wf s s' : same_identity s s' -> wf s -> wf s'.
Proof.
  intros (Hc & Hw & Hn & Hu) [Hk Hid Hf Hnd Hl]. split.
  - by rewrite Hc.
  - intros ws c' u Hs' Hu'. specialize (Hu ws). rewrite Hs' in Hu.
    destruct (sockets s !! ws) as [c|] eqn:Hs; simpl in Hu; [|done].
    apply (Hid ws c u Hs). congruence.
  - intros ws Hs'. rewrite Hn. apply Hf. specialize (Hu ws).
    destruct Hs' as [c' Hs']. rewrite Hs' in Hu.
    destruct (sockets s !! ws); simpl in Hu; [by eexists|done].
  - by rewrite Hw.
  - intros ws Hin. rewrite Hw in Hin. apply Hl in Hin as [c Hs].
    specialize (Hu ws). rewrite Hs in Hu.
    destruct (sockets s' !! ws); simpl in Hu; [by eexists|done].
Qed.

Lemma init_wf : wf init.
Proof.
  split; simpl.
  - constructor.
  - intros ws c u H. by rewrite lookup_empty in H.
  - intros ws [c H]. by rewrite lookup_empty in H.
  - constructor.
  - intros ws H. by apply elem_of_nil in H.
Qed.

Lemma on_connection_wf s : wf s -> wf (on_connection s).
Proof.
  intros [Hk Hid Hf Hnd Hl]. split; simpl.
  - done.
  - intros ws c u Hs Hu.
    destruct (decide (ws = next_socket s)) as [->|Hne].
    + rewrite lookup_insert_eq in Hs. by simplify_eq.
    + rewrite lookup_insert_ne in Hs by done. eauto.
  - intros ws Hs.
    destruct (decide (ws = next_socket s)) as [->|Hne]; [lia|].
    rewrite lookup_insert_ne in Hs by done. apply Hf in Hs. lia.
  - apply NoDup_app. split; [done|]. split; [|apply NoDup_singleton].
    intros ws Hin ->%list_elem_of_singleton.
    apply Hl, Hf in Hin. lia.
  - intros ws [Hin| ->%list_elem_of_singleton]%elem_of_app.
    + destruct (decide (ws = next_socket s)) as [->|Hne].
      * rewrite lookup_insert_eq. by eexists.
      * rewrite lookup_insert_ne by done. by apply Hl.
    + rewrite lookup_insert_eq. by eexists.
Qed.

Lemma do_identify_wf ws u s :
  truthy u = true -> wf s -> wf (do_identify ws u s).1.
Proof.
  intros Ht [Hk Hid Hf Hnd Hl]. split; simpl.
  - apply Forall_forall. intros k [Hin| ->]%keys_set; [|done].
    by apply (proj1 (Forall_forall _ _) Hk).
  - intros ws' c u' Hs Hu.
    destruct (decide (ws' = ws)) as [->|Hne].
    + rewrite lookup_alter_eq in Hs.
      destruct (sockets s !! ws) as [c0|]; simpl in Hs; [|done].
      simplify_eq. simpl in Hu. by simplify_eq.
    + rewrite lookup_alter_ne in Hs by done. eauto.
  - intros ws' Hs. apply Hf. by rewrite lookup_alter_is_Some in Hs.
  - done.
  - intros ws' Hin. rewrite lookup_alter_is_Some. by apply Hl.
Qed.

Lemma on_frame_wf ws parsed s : wf s -> wf (on_frame ws parsed s).1.
Proof.
  intros Hwf.
  destruct (on_frame_inv ws parsed s) as [->|(msg & u & _ & _ & Ht & ->)];
    [done|].
  by apply do_identify_wf.
Qed.

Lemma transport_closed_wf ws s : wf s -> wf (transport_closed ws s).
Proof.
  intros [Hk Hid Hf Hnd Hl]. split; simpl.
  - done.
  - intros ws' c u Hs Hu.
    destruct (decide (ws' = ws)) as [->|Hne].
    + rewrite lookup_alter_eq in Hs.
      destruct (sockets s !! ws) as [c0|] eqn:E; simpl in Hs; [|done].
      simplify_eq. simpl in Hu. eauto.
    + rewrite lookup_alter_ne in Hs by done. eauto.
  - intros ws' Hs. apply Hf. by rewrite lookup_alter_is_Some in Hs.
  - by apply NoDup_filter.
  - intros ws' [_ Hin]%list_elem_of_filter.
    rewrite lookup_alter_is_Some. by apply Hl.
Qed.

Lemma on_close_wf ws s : wf s -> wf (on_close ws s).
Proof.
  intros Hwf. unfold on_close.
  destruct (if_truthy (userId_of s ws)) as [u|]; [|done].
  destruct (bool_decide (JsMap.get (clients s) u = Some ws)); [|done].
  destruct Hwf as [Hk Hid Hf Hnd Hl]. split; simpl; try done.
  apply Forall_forall. intros k Hin%keys_delete.
  by apply (proj1 (Forall_forall _ _) Hk).
Qed.

Lemma step_wf e s : wf s -> wf (step e s).1.
Proof.
  intros Hwf. destruct e as [|ws parsed|ws|ws|]; simpl.
  - by apply on_connection_wf.
  - by apply on_frame_wf.
  - eapply same_identity_wf; [apply on_pong_same_identity|done].
  - by apply on_close_wf, transport_closed_wf.
  - eapply same_identity_wf; [apply heartbeat_same_identity|done].
Qed.

Lemma run_cons e evs s :
  run (e :: evs) s
  = ((run evs (step e s).1).1, (step e s).2 ++ (run evs (step e s).1).2).
Proof.
  simpl. destruct (step e s) as [s1 out1]. simpl.
  by destruct (run evs s1) as [s2 out2].
Qed.

Lemma run_app evs1 evs2 s :
  (run (evs1 ++ evs2) s).1 = (run evs2 (run evs1 s).1).1.
Proof.
  revert s. induction evs1 as [|e evs1 IH]; intros s; [done|].
  rewrite <- app_comm_cons, !run_cons. simpl. apply IH.
Qed.

Lemma run_wf evs s : wf s -> wf (run evs s).1.
Proof.
  revert s. induction evs as [|e evs IH]; intros s Hwf; [done|].
  rewrite run_cons. simpl. by apply IH, step_wf.
Qed.

Lemma reachable_wf s : reachable s -> wf s.
Proof. intros [evs <-]. apply run_wf, init_wf. Qed.

Lemma reachable_run evs s : reachable s -> reachable (run evs s).1.
Proof.
  intros [evs0 <-]. exists (evs0 ++ evs). apply run_app.
Qed.

(** ** The close handler *)

Lemma get_same_key {V} (m : JsMap.t V) k k' :
  same_value_zero k k' = true -> JsMap.get m k = JsMap.get m k'.
Proof.
  intros Hk. induction m as [|[k0 v0] m IH]; simpl; [done|].
  destruct (same_value_zero k0 k) eqn:E, (same_value_zero k0 k') eqn:E';
    try done.
  - by rewrite (same_value_zero_trans _ _ _ E Hk) in E'.
  - rewrite same_value_zero_sym in Hk.
    by rewrite (same_value_zero_trans _ _ _ E' Hk) in E.
Qed.

Lemma clients_transport_closed ws s :
  clients (transport_closed ws s) = clients s.
Proof. done. Qed.

Lemma userId_of_transport_closed ws ws' s :
  userId_of (transport_closed ws s) ws' = userId_of s ws'.
Proof.
  unfold userId_of. simpl. destruct (decide (ws' = ws)) as [->|Hne].
  - rewrite lookup_alter_eq. by destruct (sockets s !! ws).
  - by rewrite lookup_alter_ne.
Qed.

(** Closing a socket never takes away an entry that another socket holds. *)
Lemma on_close_keeps_others ws s k v :
  JsMap.get (clients s) k = Some v -> v <> ws ->
  JsMap.get (clients (on_close ws s)) k = Some v.
Proof.
  intros Hk Hne. unfold on_close.
  destruct (if_truthy (userId_of s ws)) as [u|]; [|done].
  case_bool_decide as Hu; [|done]. simpl.
  destruct (same_value_zero u k) eqn:E.
  - rewrite (get_same_key _ _ _ E) in Hu. congruence.
  - by rewrite get_delete_other.
Qed.

(** What the close handler does to the registry, case by case. *)
Lemma on_close_spec ws s :
  wf s ->
  (forall u, userId_of s ws = Some u ->
     JsMap.get (clients s) u = Some ws ->
     JsMap.get (clients (on_close ws s)) u = None) /\
  (forall u k, userId_of s ws = Some u -> same_value_zero u k = false ->
     JsMap.get (clients (on_close ws s)) k = JsMap.get (clients s) k) /\
  (forall u, userId_of s ws = Some u ->
     JsMap.get (clients s) u <> Some ws ->
     clients (on_close ws s) = clients s) /\
  (userId_of s ws = None -> clients (on_close ws s) = clients s).
Proof.
  intros Hwf. unfold on_close. split_and!.
  - intros u Hu Hget.
    assert (truthy u = true) as Ht.
    { unfold userId_of in Hu.
      destruct (sockets s !! ws) as [c|] eqn:Hs; simpl in Hu; [|done].
      by apply (wf_userId s Hwf ws c u). }
    rewrite Hu. simpl. rewrite Ht. rewrite bool_decide_eq_true_2 by done.
    simpl. apply get_delete_same.
  - intros u k Hu Hk. rewrite Hu. simpl.
    destruct (truthy u); [|done]. case_bool_decide; [|done].
    simpl. by apply get_delete_other.
  - intros u Hu Hget. rewrite Hu. simpl.
    destruct (truthy u); [|done]. by rewrite bool_decide_eq_false_2.
  - by intros ->.
Qed.

(** ** The claims *)

(** C1 (guarded unregister). When connection [A] and then a different
    connection [B] identify under the same userId [U], the registry maps [U]
    to [B], and it still does after [A] has closed. *)
Theorem guarded_unregister (s : server) (A B : nat) (mA mB U : jsval) :
  A <> B ->
  identify_frame mA U -> identify_frame mB U -> truthy U = true ->
  let s1 := (on_frame A (Normal mA) s).1 in
  let s2 := (on_frame B (Normal mB) s1).1 in
  JsMap.get (clients s2) U = Some B /\
  JsMap.get (clients (step (Close A) s2).1) U = Some B.
Proof.
  intros HAB HA HB Ht s1 s2.
  assert (JsMap.get (clients s2) U = Some B) as Hget.
  { subst s2 s1.
    rewrite (on_frame_identify A mA U s HA Ht).
    rewrite (on_frame_identify B mB U _ HB Ht). simpl.
    apply get_set_same. }
  split; [done|]. simpl.
  apply on_close_keeps_others; [|congruence].
  by rewrite clients_transport_closed.
Qed.

Lemma guarded_unregister_witness :
  let s := (run [Connection; Connection] init).1 in
  let mA := identify_msg 7 (JStr "alice") in
  let mB := identify_msg 8 (JStr "alice") in
  let s2 := (on_frame 1 (Normal mB) (on_frame 0 (Normal mA) s).1).1 in
  0 <> 1 /\ identify_frame mA (JStr "alice") /\
  identify_frame mB (JStr "alice") /\ truthy (JStr "alice") = true /\
  JsMap.get (clients s2) (JStr "alice") = Some 1 /\
  JsMap.get (clients (step (Close 0) s2).1) (JStr "alice") = Some 1.
Proof.
  intros s mA mB s2.
  assert (0 <> 1) as Hne by lia.
  assert (identify_frame mA (JStr "alice")) as HA by (split; reflexivity).
  assert (identify_frame mB (JStr "alice")) as HB by (split; reflexivity).
  assert (truthy (JStr "alice") = true) as Ht by reflexivity.
  split; [exact Hne|]. split; [exact HA|]. split; [exact HB|].
  split; [exact Ht|].
  exact (guarded_unregister s 0 1 mA mB (JStr "alice") Hne HA HB Ht).
Defined.

(** What the serializer writes for a value without infinite numbers, NaN
    and negative zeros is the value itself. *)
Lemma wire_plain : forall v, plain v = true -> wire v = v.
Proof.
  fix IH 1. intros [ |b|x|s|addr elems|addr props]; simpl; try done.
  - destruct x as [sg|sg| |sg m e]; simpl; try done.
    destruct sg; done.
  - intros H. f_equal. revert elems H.
    fix IHl 1. intros [|v elems]; simpl; [done|].
    intros [Hv Hl]%andb_true_iff. f_equal; [by apply IH|by apply IHl].
  - intros H. f_equal. revert props H.
    fix IHl 1. intros [|[k v] props]; simpl; [done|].
    intros [Hv Hl]%andb_true_iff. f_equal; [|by apply IHl].
    f_equal. by apply IH.
Qed.

(** C2, as amended. For every sender, in any protocol state, a frame
    [send{to: U, payload: P}] with a truthy payload, when [U] is registered
    to an open connection, hands exactly the frame [message{payload: P}] to
    that connection and then exactly [sent{to: U}] to the sender, with the
    payload as received, and leaves the server as it was. What the
    serializer writes for the payload is [P] itself when [P] holds no
    infinite number, NaN or negative zero. *)
Theorem send_to_open_recipient
    (s : server) (ws dest : nat) (msg U P : jsval) :
  reachable s ->
  send_frame msg U P -> truthy P = true ->
  JsMap.get (clients s) U = Some dest -> is_open s dest = true ->
  on_frame ws (Normal msg) s
  = (s, [Send dest (Message P); Send ws (Sent U)]) /\
  (plain P = true -> wire_frame (Message P) = Message P).
Proof.
  intros Hr Hmsg HP Hget Hopen.
  assert (truthy U = true) as HU.
  { destruct (get_Some_key _ _ _ Hget) as (k & Hin & Hk).
    rewrite <- (truthy_same_value_zero _ _ Hk).
    by apply (proj1 (Forall_forall _ _) (wf_keys s (reachable_wf s Hr))). }
  rewrite (on_frame_send ws msg U P s Hmsg HU HP).
  unfold do_send. rewrite Hget, Hopen. split; [done|].
  intros Hplain. simpl. by rewrite wire_plain.
Qed.

Lemma send_to_open_recipient_witness :
  let msg := send_msg 9 (JStr "bob") (JStr "Zm9v") in
  reachable bob_online /\
  send_frame msg (JStr "bob") (JStr "Zm9v") /\
  truthy (JStr "Zm9v") = true /\
  JsMap.get (clients bob_online) (JStr "bob") = Some 1 /\
  is_open bob_online 1 = true /\
  on_frame 0 (Normal msg) bob_online
  = (bob_online, [Send 1 (Message (JStr "Zm9v")); Send 0 (Sent (JStr "bob"))]) /\
  (plain (JStr "Zm9v") = true ->
   wire_frame (Message (JStr "Zm9v")) = Message (JStr "Zm9v")).
Proof.
  intros msg.
  assert (reachable bob_online) as Hr by (eexists; reflexivity).
  assert (send_frame msg (JStr "bob") (JStr "Zm9v")) as Hm
    by (repeat split; reflexivity).
  assert (truthy (JStr "Zm9v") = true) as HP by reflexivity.
  assert (JsMap.get (clients bob_online) (JStr "bob") = Some 1) as Hget
    by reflexivity.
  assert (is_open bob_online 1 = true) as Hopen by (vm_compute; reflexivity).
  split; [exact Hr|]. split; [exact Hm|]. split; [exact HP|].
  split; [exact Hget|]. split; [exact Hopen|].
  exact (send_to_open_recipient bob_online 0 1 msg (JStr "bob") (JStr "Zm9v")
           Hr Hm HP Hget Hopen).
Defined.

(** C2 as stated fails in two ways. For a falsy payload: [bob] is
    registered and open, yet [send{to: "bob", payload: ""}] is answered
    with an error frame and nothing is delivered to [bob]. For a payload
    that is an infinite number (the parse of [1e999], which is truthy): the
    frame is delivered, but the serializer writes its payload as [null], so
    the payload does not reach [bob] unchanged. *)
Lemma send_empty_payload_not_delivered :
  let msg := send_msg 9 (JStr "bob") (JStr "") in
  let big := send_msg 9 (JStr "bob") (JNum (S754_infinity false)) in
  send_frame msg (JStr "bob") (JStr "") /\
  JsMap.get (clients bob_online) (JStr "bob") = Some 1 /\
  is_open bob_online 1 = true /\
  on_frame 0 (Normal msg) bob_online
  = (bob_online, [Send 0 (Error "send requires to and payload")]) /\
  on_frame 0 (Normal msg) bob_online
  <> (bob_online, [Send 1 (Message (JStr "")); Send 0 (Sent (JStr "bob"))]) /\
  send_frame big (JStr "bob") (JNum (S754_infinity false)) /\
  truthy (JNum (S754_infinity false)) = true /\
  on_frame 0 (Normal big) bob_online
  = (bob_online, [Send 1 (Message (JNum (S754_infinity false)));
                  Send 0 (Sent (JStr "bob"))]) /\
  wire_frame (Message (JNum (S754_infinity false))) = Message JNull /\
  wire_frame (Message (JNum (S754_infinity false)))
  <> Message (JNum (S754_infinity false)).
Proof.
  intros msg big.
  assert (send_frame msg (JStr "bob") (JStr "")) as Hm
    by (repeat split; reflexivity).
  assert (send_frame big (JStr "bob") (JNum (S754_infinity false))) as Hb
    by (repeat split; reflexivity).
  split; [exact Hm|]. split; [reflexivity|].
  split; [vm_compute; reflexivity|].
  rewrite (on_frame_send_falsy 0 msg (JStr "bob") (JStr "") bob_online Hm)
    by (right; reflexivity).
  split; [reflexivity|]. split; [intros [=]|].
  split; [exact Hb|]. split; [reflexivity|].
  split; [vm_compute; reflexivity|].
  split; [reflexivity|]. intros [=].
Qed.

(** C3, as amended. For every sender, a frame [send{to: U, payload: P}] with
    truthy [U] and [P], when [U] is not registered or is registered to a
    connection that is not open, is answered with exactly one frame
    [offline{to: U}] to the sender; no [message] frame goes to any
    connection and the server stays as it was. *)
Theorem send_to_absent_recipient (s : server) (ws : nat) (msg U P : jsval) :
  send_frame msg U P -> truthy U = true -> truthy P = true ->
  (JsMap.get (clients s) U = None \/
   exists dest, JsMap.get (clients s) U = Some dest /\ is_open s dest = false) ->
  on_frame ws (Normal msg) s = (s, [Send ws (Offline U)]) /\
  deliveries (on_frame ws (Normal msg) s).2 = [].
Proof.
  intros Hmsg HU HP Habsent.
  rewrite (on_frame_send ws msg U P s Hmsg HU HP). unfold do_send.
  destruct Habsent as [-> | (dest & -> & ->)]; by split.
Qed.

Lemma send_to_absent_recipient_witness :
  let msg := send_msg 9 (JStr "carol") (JStr "Zm9v") in
  send_frame msg (JStr "carol") (JStr "Zm9v") /\
  truthy (JStr "carol") = true /\ truthy (JStr "Zm9v") = true /\
  JsMap.get (clients bob_online) (JStr "carol") = None /\
  on_frame 0 (Normal msg) bob_online
  = (bob_online, [Send 0 (Offline (JStr "carol"))]) /\
  deliveries (on_frame 0 (Normal msg) bob_online).2 = [].
Proof.
  intros msg.
  assert (send_frame msg (JStr "carol") (JStr "Zm9v")) as Hm
    by (repeat split; reflexivity).
  assert (truthy (JStr "carol") = true) as HU by reflexivity.
  assert (truthy (JStr "Zm9v") = true) as HP by reflexivity.
  assert (JsMap.get (clients bob_online) (JStr "carol") = None) as Hget
    by reflexivity.
  split; [exact Hm|]. split; [exact HU|]. split; [exact HP|].
  split; [exact Hget|].
  exact (send_to_absent_recipient bob_online 0 msg (JStr "carol")
           (JStr "Zm9v") Hm HU HP (or_introl Hget)).
Defined.

(** C3 as stated fails when [to] or [payload] is falsy: [carol] is not
    registered, yet [send{to: "carol", payload: ""}] is answered with an
    error frame instead of [offline]; so is [send{to: "", payload: "Zm9v"}],
    whose recipient is not registered either. *)
Lemma send_falsy_field_not_offline :
  let m1 := send_msg 9 (JStr "carol") (JStr "") in
  let m2 := send_msg 9 (JStr "") (JStr "Zm9v") in
  send_frame m1 (JStr "carol") (JStr "") /\
  JsMap.get (clients bob_online) (JStr "carol") = None /\
  (on_frame 0 (Normal m1) bob_online).2
  = [Send 0 (Error "send requires to and payload")] /\
  (on_frame 0 (Normal m1) bob_online).2 <> [Send 0 (Offline (JStr "carol"))] /\
  send_frame m2 (JStr "") (JStr "Zm9v") /\
  JsMap.get (clients bob_online) (JStr "") = None /\
  (on_frame 0 (Normal m2) bob_online).2
  = [Send 0 (Error "send requires to and payload")] /\
  (on_frame 0 (Normal m2) bob_online).2 <> [Send 0 (Offline (JStr ""))].
Proof.
  intros m1 m2.
  assert (send_frame m1 (JStr "carol") (JStr "")) as H1
    by (repeat split; reflexivity).
  assert (send_frame m2 (JStr "") (JStr "Zm9v")) as H2
    by (repeat split; reflexivity).
  rewrite (on_frame_send_falsy 0 m1 _ _ bob_online H1) by (right; reflexivity).
  rewrite (on_frame_send_falsy 0 m2 _ _ bob_online H2) by (left; reflexivity).
  simpl. split_and!; try done.
Qed.

(** C5, as amended. When a connection closes, the registry entry of the
    userId it identified as last is removed if that entry holds the
    connection; entries under every other key stay as they are, and nothing
    changes if the connection never identified or its entry holds another
    connection. *)
Theorem close_removes_current_entry (s : server) (ws : nat) :
  reachable s ->
  let s' := (step (Close ws) s).1 in
  (forall u, userId_of s ws = Some u ->
     JsMap.get (clients s) u = Some ws -> JsMap.get (clients s') u = None) /\
  (forall u k, userId_of s ws = Some u -> same_value_zero u k = false ->
     JsMap.get (clients s') k = JsMap.get (clients s) k) /\
  (forall u, userId_of s ws = Some u ->
     JsMap.get (clients s) u <> Some ws -> clients s' = clients s) /\
  (userId_of s ws = None -> clients s' = clients s).
Proof.
  intros Hr s'. subst s'. simpl.
  pose proof (on_close_spec ws (transport_closed ws s)
                (transport_closed_wf ws s (reachable_wf s Hr))) as H.
  rewrite userId_of_transport_closed, clients_transport_closed in H.
  exact H.
Qed.

Lemma close_removes_current_entry_witness :
  reachable alice_then_bob /\
  userId_of alice_then_bob 0 = Some (JStr "bob") /\
  JsMap.get (clients alice_then_bob) (JStr "bob") = Some 0 /\
  JsMap.get (clients (step (Close 0) alice_then_bob).1) (JStr "bob") = None.
Proof.
  assert (reachable alice_then_bob) as Hr by (eexists; reflexivity).
  assert (userId_of alice_then_bob 0 = Some (JStr "bob")) as Hu
    by (vm_compute; reflexivity).
  assert (JsMap.get (clients alice_then_bob) (JStr "bob") = Some 0) as Hget
    by reflexivity.
  split; [exact Hr|]. split; [exact Hu|]. split; [exact Hget|].
  exact (proj1 (close_removes_current_entry alice_then_bob 0 Hr)
           (JStr "bob") Hu Hget).
Defined.

(** C5 as stated fails for a connection that identified twice: socket 0
    identified as [alice], then as [bob]; when it closes, the entry of
    [alice], whose stored handle is socket 0, is still in the registry. *)
Lemma close_leaves_earlier_entry :
  JsMap.get (clients alice_then_bob) (JStr "alice") = Some 0 /\
  JsMap.get (clients (step (Close 0) alice_then_bob).1) (JStr "alice")
  = Some 0.
Proof. split; vm_compute; reflexivity. Qed.

(** C6. In state Unidentified, an [identify] frame whose [userId] is absent
    or the empty string is answered with an error frame to the sender; the
    server is as it was, so the connection is still Unidentified and the
    registry has no new entry. *)
Theorem identify_requires_userId (s : server) (ws : nat) (msg : jsval) :
  userId_of s ws = None ->
  get_field msg "type" = Normal (Some (JStr "identify")) ->
  (get_field msg "userId" = Normal None \/
   get_field msg "userId" = Normal (Some (JStr ""))) ->
  let r := on_frame ws (Normal msg) s in
  r = (s, [Send ws (Error "identify requires userId")]) /\
  userId_of r.1 ws = None /\
  clients r.1 = clients s.
Proof.
  intros Hun Hty Hu r.
  assert (r = (s, [Send ws (Error "identify requires userId")])) as ->.
  { subst r. unfold on_frame, try_body. simpl. rewrite Hty. simpl.
    by destruct Hu as [-> | ->]. }
  by split_and!.
Qed.

Lemma identify_requires_userId_witness :
  let s := (run [Connection] init).1 in
  let msg := JObj 7 [("type", JStr "identify"); ("userId", JStr "")] in
  userId_of s 0 = None /\
  get_field msg "type" = Normal (Some (JStr "identify")) /\
  get_field msg "userId" = Normal (Some (JStr "")) /\
  on_frame 0 (Normal msg) s
  = (s, [Send 0 (Error "identify requires userId")]) /\
  userId_of (on_frame 0 (Normal msg) s).1 0 = None /\
  clients (on_frame 0 (Normal msg) s).1 = clients s.
Proof.
  intros s msg.
  assert (userId_of s 0 = None) as Hun by (vm_compute; reflexivity).
  assert (get_field msg "type" = Normal (Some (JStr "identify"))) as Hty
    by reflexivity.
  assert (get_field msg "userId" = Normal (Some (JStr ""))) as Hu
    by reflexivity.
  split; [exact Hun|]. split; [exact Hty|]. split; [exact Hu|].
  exact (identify_requires_userId s 0 msg Hun Hty (or_intror Hu)).
Defined.

(** C7. For every inbound data frame on which [JSON.parse] throws, the
    handler sends exactly one frame [error{message: "invalid JSON"}] to the
    sender and changes nothing: the socket keeps its [readyState], the
    connection its protocol state, the registry its entries. *)
Theorem malformed_frame_rejected
    (JSON_parse : string -> completion jsval)
    (s : server) (ws : nat) (data : string) :
  JSON_parse data = Throw SyntaxError ->
  let r := on_message JSON_parse ws data s in
  r = (s, [Send ws (Error "invalid JSON")]) /\
  is_open r.1 ws = is_open s ws /\
  userId_of r.1 ws = userId_of s ws /\
  clients r.1 = clients s.
Proof.
  intros Hparse r. subst r. unfold on_message, on_frame.
  rewrite Hparse. simpl. by split_and!.
Qed.

Lemma malformed_frame_rejected_witness :
  let s := (run [Connection] init).1 in
  parse_literal_name "{type:" = Throw SyntaxError /\
  on_message parse_literal_name 0 "{type:" s
  = (s, [Send 0 (Error "invalid JSON")]) /\
  is_open (on_message parse_literal_name 0 "{type:" s).1 0 = is_open s 0 /\
  userId_of (on_message parse_literal_name 0 "{type:" s).1 0 = userId_of s 0 /\
  clients (on_message parse_literal_name 0 "{type:" s).1 = clients s.
Proof.
  intros s.
  assert (parse_literal_name "{type:" = Throw SyntaxError) as Hp
    by reflexivity.
  split; [exact Hp|].
  exact (malformed_frame_rejected parse_literal_name s 0 "{type:" Hp).
Defined.

(** ** The protocol state of a connection *)

Lemma userId_of_alter_other f ws ws' s :
  ws' <> ws ->
  userId_of (with_sockets (alter f ws (sockets s)) s) ws' = userId_of s ws'.
Proof. intros Hne. unfold userId_of. simpl. by rewrite lookup_alter_ne. Qed.

Lemma userId_of_do_identify ws u s :
  is_Some (sockets s !! ws) -> userId_of (do_identify ws u s).1 ws = Some u.
Proof.
  intros [c Hc]. unfold userId_of. simpl. by rewrite lookup_alter_eq, Hc.
Qed.

Lemma userId_of_do_identify_other ws ws' u s :
  ws' <> ws -> userId_of (do_identify ws u s).1 ws' = userId_of s ws'.
Proof. intros Hne. unfold userId_of. simpl. by rewrite lookup_alter_ne. Qed.

Lemma userId_of_on_close ws ws' s :
  userId_of (on_close ws s) ws' = userId_of s ws'.
Proof.
  unfold on_close. destruct (if_truthy (userId_of s ws)); [|done].
  by case_bool_decide.
Qed.

Lemma userId_of_is_Some s ws u :
  userId_of s ws = Some u -> is_Some (sockets s !! ws).
Proof.
  unfold userId_of. destruct (sockets s !! ws); [by eexists|done].
Qed.






(** ** Entries of a connection that identifies more than once *)

Lemma same_identity_is_Some s s' ws :
  same_identity s s' ->
  is_Some (sockets s !! ws) -> is_Some (sockets s' !! ws).
Proof.
  intros (_ & _ & _ & Hu) [c Hc]. specialize (Hu ws). rewrite Hc in Hu.
  destruct (sockets s' !! ws); [by eexists|done].
Qed.

Lemma on_close_sockets ws s : sockets (on_close ws s) = sockets s.
Proof.
  unfold on_close. destruct (if_truthy (userId_of s ws)); [|done].
  by case_bool_decide.
Qed.

Lemma step_socket_exists e s ws :
  is_Some (sockets s !! ws) -> is_Some (sockets (step e s).1 !! ws).
Proof.
  intros Hex. destruct e as [|ws' parsed|ws'|ws'|]; simpl.
  - rewrite lookup_insert_is_Some. destruct (decide (next_socket s = ws)); auto.
  - destruct (on_frame_inv ws' parsed s) as [->|(msg & v & _ & _ & _ & ->)];
      [done|].
    simpl. by rewrite lookup_alter_is_Some.
  - by rewrite lookup_alter_is_Some.
  - rewrite on_close_sockets. simpl. by rewrite lookup_alter_is_Some.
  - eapply same_identity_is_Some; [apply heartbeat_same_identity|done].
Qed.

Lemma run_socket_exists evs s ws :
  is_Some (sockets s !! ws) -> is_Some (sockets (run evs s).1 !! ws).
Proof.
  revert s. induction evs as [|e evs IH]; intros s Hex; [done|].
  rewrite run_cons. simpl. by apply IH, step_socket_exists.
Qed.

Lemma undisturbed_step e s ws u :
  disturbs ws u e = false ->
  JsMap.get (clients s) u = Some ws ->
  JsMap.get (clients (step e s).1) u = Some ws.
Proof.
  intros Hd Hget. destruct e as [|ws' parsed|ws'|ws'|]; simpl.
  - done.
  - destruct (on_frame_inv ws' parsed s)
      as [->|(msg & v & -> & [Hty Huid] & Hv & ->)]; [done|].
    simpl in *. rewrite Hty, Huid, Hv in Hd. simpl in Hd.
    destruct (same_value_zero v u) eqn:E.
    + rewrite !andb_true_r in Hd. apply bool_decide_eq_false in Hd.
      assert (ws' = ws) as -> by (destruct (decide (ws' = ws)); tauto).
      rewrite same_value_zero_sym in E.
      rewrite (get_same_key _ _ _ E). apply get_set_same.
    + by rewrite get_set_other.
  - done.
  - simpl in Hd. apply bool_decide_eq_false in Hd.
    apply on_close_keeps_others; [done|congruence].
  - by destruct (heartbeat_same_identity s) as (-> & _).
Qed.

Lemma undisturbed_run evs s ws u :
  forallb (fun e => negb (disturbs ws u e)) evs = true ->
  JsMap.get (clients s) u = Some ws ->
  JsMap.get (clients (run evs s).1) u = Some ws.
Proof.
  revert s. induction evs as [|e evs IH]; intros s Hall Hget; [done|].
  simpl in Hall. apply andb_true_iff in Hall as [He Hall].
  apply negb_true_iff in He.
  rewrite run_cons. simpl. by apply IH, undisturbed_step.
Qed.

(** C10. A connection that identifies as [u1] and later as a different
    [u2], while no other connection registers [u1] in between, holds both
    registry entries; when it closes, the entry of [u2] is removed and no
    other one, so the entry of [u1] stays, pointing at the closed socket,
    until a later [identify] under [u1] overwrites it. *)
Theorem reidentify_keeps_earlier_entry
    (s : server) (ws : nat) (m1 m2 u1 u2 : jsval) (evs : list event) :
  is_Some (sockets s !! ws) ->
  identify_frame m1 u1 -> truthy u1 = true ->
  identify_frame m2 u2 -> truthy u2 = true ->
  same_value_zero u1 u2 = false ->
  forallb (fun e => negb (disturbs ws u1 e)) evs = true ->
  let s1 := (on_frame ws (Normal m1) s).1 in
  let s2 := (run evs s1).1 in
  let s3 := (on_frame ws (Normal m2) s2).1 in
  let s4 := (step (Close ws) s3).1 in
  JsMap.get (clients s3) u1 = Some ws /\
  JsMap.get (clients s3) u2 = Some ws /\
  JsMap.get (clients s4) u2 = None /\
  (forall k, same_value_zero u2 k = false ->
     JsMap.get (clients s4) k = JsMap.get (clients s3) k) /\
  JsMap.get (clients s4) u1 = Some ws /\
  is_open s4 ws = false /\
  (forall ws' m, identify_frame m u1 ->
     JsMap.get (clients (on_frame ws' (Normal m) s4).1) u1 = Some ws').
Proof.
  intros Hex H1 Ht1 H2 Ht2 Hne Hquiet s1 s2 s3 s4.
  assert (JsMap.get (clients s1) u1 = Some ws) as Hs1.
  { subst s1. rewrite (on_frame_identify ws m1 u1 s H1 Ht1). simpl.
    apply get_set_same. }
  assert (is_Some (sockets s1 !! ws)) as Hex1.
  { subst s1. by apply (step_socket_exists (Frame ws (Normal m1))). }
  assert (JsMap.get (clients s2) u1 = Some ws) as Hs2
    by (by apply undisturbed_run).
  assert (is_Some (sockets s2 !! ws)) as Hex2
    by (by apply run_socket_exists).
  assert (s3 = (do_identify ws u2 s2).1) as Es3
    by (subst s3; by rewrite (on_frame_identify ws m2 u2 s2 H2 Ht2)).
  assert (JsMap.get (clients s3) u1 = Some ws) as Hs3.
  { rewrite Es3. simpl. rewrite get_set_other; [done|].
    by rewrite same_value_zero_sym. }
  assert (JsMap.get (clients s3) u2 = Some ws) as Hs3'
    by (rewrite Es3; simpl; apply get_set_same).
  assert (userId_of s3 ws = Some u2) as Hu3
    by (rewrite Es3; by apply userId_of_do_identify).
  assert (clients s4 = JsMap.delete (clients s3) u2) as Es4.
  { subst s4. simpl. unfold on_close.
    rewrite userId_of_transport_closed, Hu3. simpl. rewrite Ht2.
    by rewrite bool_decide_eq_true_2. }
  assert (forall k, same_value_zero u2 k = false ->
            JsMap.get (clients s4) k = JsMap.get (clients s3) k) as Hother.
  { intros k Hk. rewrite Es4. by apply get_delete_other. }
  split_and!; try done.
  - rewrite Es4. apply get_delete_same.
  - rewrite Hother; [done|]. by rewrite same_value_zero_sym.
  - subst s4. unfold is_open. simpl. rewrite on_close_sockets. simpl.
    rewrite lookup_alter_eq.
    assert (is_Some (sockets s3 !! ws)) as [c3 ->]
      by (by apply userId_of_is_Some in Hu3).
    done.
  - intros ws' m Hm. rewrite (on_frame_identify ws' m u1 s4 Hm Ht1). simpl.
    apply get_set_same.
Qed.

Lemma reidentify_keeps_earlier_entry_witness :
  let s := (run [Connection; Connection] init).1 in
  let m1 := identify_msg 7 (JStr "alice") in
  let m2 := identify_msg 8 (JStr "bob") in
  let evs := [Frame 1 (Normal (identify_msg 9 (JStr "carol"))); Tick;
              Frame 0 (Normal (send_msg 10 (JStr "carol") (JStr "Zm9v")))] in
  let s3 := (on_frame 0 (Normal m2)
               (run evs (on_frame 0 (Normal m1) s).1).1).1 in
  let s4 := (step (Close 0) s3).1 in
  is_Some (sockets s !! 0) /\
  identify_frame m1 (JStr "alice") /\ truthy (JStr "alice") = true /\
  identify_frame m2 (JStr "bob") /\ truthy (JStr "bob") = true /\
  same_value_zero (JStr "alice") (JStr "bob") = false /\
  forallb (fun e => negb (disturbs 0 (JStr "alice") e)) evs = true /\
  JsMap.get (clients s3) (JStr "alice") = Some 0 /\
  JsMap.get (clients s3) (JStr "bob") = Some 0 /\
  JsMap.get (clients s4) (JStr "bob") = None /\
  JsMap.get (clients s4) (JStr "alice") = Some 0.
Proof.
  intros s m1 m2 evs s3 s4.
  assert (is_Some (sockets s !! 0)) as Hex by (vm_compute; eexists; reflexivity).
  assert (identify_frame m1 (JStr "alice")) as H1 by (split; reflexivity).
  assert (identify_frame m2 (JStr "bob")) as H2 by (split; reflexivity).
  assert (truthy (JStr "alice") = true) as Ht1 by reflexivity.
  assert (truthy (JStr "bob") = true) as Ht2 by reflexivity.
  assert (same_value_zero (JStr "alice") (JStr "bob") = false) as Hne
    by reflexivity.
  assert (forallb (fun e => negb (disturbs 0 (JStr "alice") e)) evs = true)
    as Hq by reflexivity.
  pose proof (reidentify_keeps_earlier_entry s 0 m1 m2 (JStr "alice")
                (JStr "bob") evs Hex H1 Ht1 H2 Ht2 Hne Hq)
    as (Ha & Hb & Hc & _ & Hd & _).
  split; [exact Hex|]. split; [exact H1|]. split; [exact Ht1|].
  split; [exact H2|]. split; [exact Ht2|]. split; [exact Hne|].
  split; [exact Hq|]. split; [exact Ha|]. split; [exact Hb|].
  split; [exact Hc|]. exact Hd.
Defined.

(** ** The key directory *)

Lemma post_register_other req pk name :
  KeyDirectory.req_userId req <> Some name ->
  (KeyDirectory.post_register req pk).1 !! name = pk !! name.
Proof.
  intros Hne. unfold KeyDirectory.post_register.
  destruct (negb (KeyDirectory.present (KeyDirectory.req_userId req))
            || negb (KeyDirectory.present (KeyDirectory.req_publicKey req)));
    [done|].
  destruct (KeyDirectory.req_userId req) as [userId|]; [|done].
  destruct (KeyDirectory.req_publicKey req) as [publicKey|]; [|done].
  simpl. unfold KeyDirectory.write.
  destruct (String.eqb userId "__proto__"); [done|].
  apply lookup_insert_ne. congruence.
Qed.

Lemma register_all_other reqs pk name :
  Forall (fun req => KeyDirectory.req_userId req <> Some name) reqs ->
  KeyDirectory.register_all reqs pk !! name = pk !! name.
Proof.
  unfold KeyDirectory.register_all. revert pk.
  induction reqs as [|req reqs IH]; intros pk Hall; [done|].
  apply Forall_cons in Hall as [Hreq Hall]. simpl.
  rewrite IH by done. by apply post_register_other.
Qed.

(** X5 (lookup of an unknown user). As long as no register request was
    made under the userId [__proto__], a userId that is not a member of
    [Object.prototype] and was never registered is answered with 404
    [{error: "not found"}], whatever else was registered. *)
Lemma get_key_not_found reqs userId :
  Forall (fun req => KeyDirectory.req_userId req <> Some "__proto__") reqs ->
  KeyDirectory.inherited userId = false ->
  Forall (fun req => KeyDirectory.req_userId req <> Some userId) reqs ->
  KeyDirectory.get_key userId
    (KeyDirectory.register_all reqs KeyDirectory.publicKeys_init)
  = {| KeyDirectory.status := 404;
       KeyDirectory.json := KeyDirectory.ErrorBody "not found" |}.
Proof.
  intros _ Hinh Hall. unfold KeyDirectory.get_key, KeyDirectory.read.
  rewrite register_all_other by done.
  unfold KeyDirectory.publicKeys_init. rewrite lookup_empty. by rewrite Hinh.
Qed.

(** A key stored under a userId is what [GET /keys/:userId] answers. *)
Lemma get_key_found pk userId publicKey :
  pk !! userId = Some publicKey -> publicKey <> "" ->
  KeyDirectory.get_key userId pk
  = {| KeyDirectory.status := 200;
       KeyDirectory.json :=
         KeyDirectory.KeyBody userId (KeyDirectory.OwnValue publicKey) |}.
Proof.
  intros Hpk Hne. unfold KeyDirectory.get_key, KeyDirectory.read.
  rewrite Hpk. simpl.
  destruct (String.eqb publicKey "") eqn:E; [|done].
  by apply String.eqb_eq in E.
Qed.

(** X20 (lookup of an inherited name). For every name that plain objects
    inherit from [Object.prototype], as long as no register request was made
    under it or under the userId [__proto__], [GET /keys/:userId] answers
    200 with the inherited member, whatever else was registered. *)
Lemma get_key_inherited reqs name :
  Forall (fun req => KeyDirectory.req_userId req <> Some "__proto__") reqs ->
  KeyDirectory.inherited name = true ->
  Forall (fun req => KeyDirectory.req_userId req <> Some name) reqs ->
  KeyDirectory.get_key name
    (KeyDirectory.register_all reqs KeyDirectory.publicKeys_init)
  = {| KeyDirectory.status := 200;
       KeyDirectory.json :=
         KeyDirectory.KeyBody name (KeyDirectory.Builtin name) |}.
Proof.
  intros _ Hinh Hall. unfold KeyDirectory.get_key, KeyDirectory.read.
  rewrite register_all_other by done.
  unfold KeyDirectory.publicKeys_init. rewrite lookup_empty. by rewrite Hinh.
Qed.

(** C9, at the failing request. No key has been stored, yet
    [GET /keys/constructor] answers 200: the lookup in the plain object
    [publicKeys] finds the member that every object inherits. *)
Theorem get_key_finds_inherited_member :
  KeyDirectory.publicKeys_init !! "constructor" = None /\
  KeyDirectory.get_key "constructor" KeyDirectory.publicKeys_init
  = {| KeyDirectory.status := 200;
       KeyDirectory.json :=
         KeyDirectory.KeyBody "constructor"
           (KeyDirectory.Builtin "constructor") |}.
Proof. split; reflexivity. Qed.

(** ** The heartbeat *)

Lemma heartbeat_visit_dead s out ws c :
  sockets s !! ws = Some c -> isAlive c = false ->
  heartbeat_visit (s, out) ws = (terminate ws s, out ++ [Terminate ws]).
Proof. intros Hc Ha. unfold heartbeat_visit. by rewrite Hc, Ha. Qed.

Lemma heartbeat_visit_alive s out ws c :
  sockets s !! ws = Some c -> isAlive c = true ->
  heartbeat_visit (s, out) ws
  = (with_sockets (<[ws := set_isAlive false c]> (sockets s)) s,
     out ++ [Ping ws]).
Proof. intros Hc Ha. unfold heartbeat_visit. by rewrite Hc, Ha. Qed.

Lemma heartbeat_visit_other s out ws ws' :
  ws <> ws' ->
  sockets (heartbeat_visit (s, out) ws').1 !! ws = sockets s !! ws /\
  (forall e, e ∈ (heartbeat_visit (s, out) ws').2 ->
     e ∈ out \/ e = Ping ws' \/ e = Terminate ws').
Proof.
  intros Hne. unfold heartbeat_visit.
  destruct (sockets s !! ws') as [c'|]; [|by split; [|left]].
  destruct (isAlive c'); simpl.
  - rewrite lookup_insert_ne by done. split; [done|].
    intros e [?| ->%list_elem_of_singleton]%elem_of_app; auto.
  - rewrite lookup_alter_ne by done. split; [done|].
    intros e [?| ->%list_elem_of_singleton]%elem_of_app; auto.
Qed.

Lemma heartbeat_visit_mono s out ws' e :
  e ∈ out -> e ∈ (heartbeat_visit (s, out) ws').2.
Proof.
  intros Hin. unfold heartbeat_visit.
  destruct (sockets s !! ws') as [c'|]; [|done].
  destruct (isAlive c'); simpl; apply elem_of_app; by left.
Qed.

Lemma terminate_socket ws s c :
  sockets s !! ws = Some c ->
  exists c', sockets (terminate ws s) !! ws = Some c' /\
             isAlive c' = isAlive c /\ readyState c' <> OPEN.
Proof.
  intros Hc. unfold terminate. simpl. rewrite lookup_alter_eq, Hc. simpl.
  case_bool_decide as Hr; eexists; split_and!; try done.
  by rewrite Hr.
Qed.

Section HeartbeatFold.
Variable ws : nat.

Lemma heartbeat_fold_mono l s out e :
  e ∈ out -> e ∈ (foldl heartbeat_visit (s, out) l).2.
Proof.
  revert s out. induction l as [|ws' l IH]; intros s out Hin;
    cbn [foldl]; [done|].
  destruct (heartbeat_visit (s, out) ws') as [s1 out1] eqn:E.
  apply IH. change out1 with (s1, out1).2. rewrite <- E.
  by apply heartbeat_visit_mono.
Qed.

(** A socket that the sweep does not visit is not touched. *)
Lemma heartbeat_fold_unvisited l s out :
  ws ∉ l ->
  let r := foldl heartbeat_visit (s, out) l in
  sockets r.1 !! ws = sockets s !! ws /\
  (Ping ws ∈ r.2 -> Ping ws ∈ out) /\
  (Terminate ws ∈ r.2 -> Terminate ws ∈ out).
Proof.
  revert s out. induction l as [|ws' l IH]; intros s out Hnin;
    cbn [foldl]; [done|].
  apply not_elem_of_cons in Hnin as [Hne Hnin].
  destruct (heartbeat_visit (s, out) ws') as [s1 out1] eqn:E.
  destruct (heartbeat_visit_other s out ws ws' Hne) as [Hs Hout].
  rewrite E in Hs, Hout. simpl in Hs, Hout.
  destruct (IH s1 out1 Hnin) as (Hs' & Hp & Ht). split_and!.
  - by rewrite Hs'.
  - intros H. apply Hp, Hout in H as [?|[?|?]]; [done|congruence..].
  - intros H. apply Ht, Hout in H as [?|[?|?]]; [done|congruence..].
Qed.

(** A socket whose [isAlive] is false gets no probe, and stays so. *)
Lemma heartbeat_fold_dead l s out c :
  sockets s !! ws = Some c -> isAlive c = false ->
  let r := foldl heartbeat_visit (s, out) l in
  (exists c', sockets r.1 !! ws = Some c' /\ isAlive c' = false /\
              (readyState c <> OPEN -> readyState c' <> OPEN)) /\
  (Ping ws ∈ r.2 -> Ping ws ∈ out).
Proof.
  revert s out c. induction l as [|ws' l IH]; intros s out c Hc Ha;
    cbn [foldl].
  - split; [|done]. by exists c.
  - destruct (decide (ws = ws')) as [<-|Hne].
    + rewrite (heartbeat_visit_dead s out ws c Hc Ha).
      destruct (terminate_socket ws s c Hc) as (c1 & Hc1 & Ha1 & Hr1).
      rewrite Ha in Ha1.
      destruct (IH (terminate ws s) (out ++ [Terminate ws]) c1 Hc1 Ha1)
        as ((c' & Hc' & Ha' & Hr') & Hp).
      split; [exists c'; split_and!; auto|].
      intros H. apply Hp in H.
      apply elem_of_app in H as [?|H%list_elem_of_singleton]; done.
    + destruct (heartbeat_visit (s, out) ws') as [s1 out1] eqn:E.
      destruct (heartbeat_visit_other s out ws ws' Hne) as [Hs Hout].
      rewrite E in Hs, Hout. simpl in Hs, Hout.
      rewrite <- Hs in Hc.
      destruct (IH s1 out1 c Hc Ha) as (Hex & Hp).
      split; [done|].
      intros H. apply Hp, Hout in H as [?|[?|?]]; [done|congruence..].
Qed.

(** A visited socket whose [isAlive] is false is terminated. *)
Lemma heartbeat_fold_terminates l s out c :
  ws ∈ l -> sockets s !! ws = Some c -> isAlive c = false ->
  let r := foldl heartbeat_visit (s, out) l in
  Terminate ws ∈ r.2 /\
  exists c', sockets r.1 !! ws = Some c' /\ readyState c' <> OPEN.
Proof.
  revert s out c. induction l as [|ws' l IH]; intros s out c Hin Hc Ha;
    cbn [foldl]; [by apply elem_of_nil in Hin|].
  destruct (decide (ws = ws')) as [<-|Hne].
  - rewrite (heartbeat_visit_dead s out ws c Hc Ha).
    destruct (terminate_socket ws s c Hc) as (c1 & Hc1 & Ha1 & Hr1).
    rewrite Ha in Ha1. split.
    + apply heartbeat_fold_mono, elem_of_app. right. by left.
    + destruct (heartbeat_fold_dead l (terminate ws s)
                  (out ++ [Terminate ws]) c1 Hc1 Ha1)
        as ((c' & Hc' & _ & Hr') & _).
      exists c'. auto.
  - apply elem_of_cons in Hin as [?|Hin]; [done|].
    destruct (heartbeat_visit (s, out) ws') as [s1 out1] eqn:E.
    destruct (heartbeat_visit_other s out ws ws' Hne) as [Hs _].
    rewrite E in Hs. simpl in Hs. rewrite <- Hs in Hc.
    by apply (IH s1 out1 c).
Qed.

(** A visited socket whose [isAlive] is true is probed, not terminated,
    and its [isAlive] becomes false. *)
Lemma heartbeat_fold_probes l s out c :
  ws ∈ l -> NoDup l -> sockets s !! ws = Some c -> isAlive c = true ->
  let r := foldl heartbeat_visit (s, out) l in
  Ping ws ∈ r.2 /\
  (Terminate ws ∈ r.2 -> Terminate ws ∈ out) /\
  sockets r.1 !! ws = Some (set_isAlive false c).
Proof.
  revert s out c. induction l as [|ws' l IH]; intros s out c Hin Hnd Hc Ha;
    cbn [foldl]; [by apply elem_of_nil in Hin|].
  apply NoDup_cons in Hnd as [Hnin Hnd].
  destruct (decide (ws = ws')) as [<-|Hne].
  - rewrite (heartbeat_visit_alive s out ws c Hc Ha).
    destruct (heartbeat_fold_unvisited l
                (with_sockets (<[ws := set_isAlive false c]> (sockets s)) s)
                (out ++ [Ping ws]) Hnin) as (Hs & _ & Ht).
    split_and!.
    + apply heartbeat_fold_mono, elem_of_app. right. by left.
    + intros H. apply Ht in H.
      apply elem_of_app in H as [?|H%list_elem_of_singleton]; done.
    + rewrite Hs. simpl. by rewrite lookup_insert_eq.
  - apply elem_of_cons in Hin as [?|Hin]; [done|].
    destruct (heartbeat_visit (s, out) ws') as [s1 out1] eqn:E.
    destruct (heartbeat_visit_other s out ws ws' Hne) as [Hs Hout].
    rewrite E in Hs, Hout. simpl in Hs, Hout. rewrite <- Hs in Hc.
    destruct (IH s1 out1 c Hin Hnd Hc Ha) as (Hp & Ht & Hs').
    split_and!; [done| |done].
    intros H. apply Ht, Hout in H as [?|[?|?]]; [done|congruence..].
Qed.
End HeartbeatFold.

(** An event that is neither a response nor the close of [ws] nor a tick
    leaves [isAlive] of [ws] and its membership in [wss.clients] alone. *)
Lemma silent_step e s ws c :
  wf s -> silent ws e = true ->
  ws ∈ wss_clients s -> sockets s !! ws = Some c ->
  ws ∈ wss_clients (step e s).1 /\
  exists c', sockets (step e s).1 !! ws = Some c' /\ isAlive c' = isAlive c.
Proof.
  intros Hwf Hsil Hin Hc. destruct e as [|ws' parsed|ws'|ws'|]; simpl in *.
  - split; [apply elem_of_app; by left|]. exists c. split; [|done].
    rewrite lookup_insert_ne; [done|].
    assert (ws < next_socket s) by (apply (wf_fresh s Hwf); by eexists). lia.
  - destruct (on_frame_inv ws' parsed s) as [->|(msg & v & _ & _ & _ & ->)];
      [split; [done|by exists c]|].
    simpl. split; [done|].
    destruct (decide (ws = ws')) as [<-|Hne].
    + rewrite lookup_alter_eq, Hc. simpl. by eexists.
    + rewrite lookup_alter_ne by done. by exists c.
  - apply bool_decide_eq_true in Hsil. split; [done|].
    rewrite lookup_alter_ne by done. by exists c.
  - apply bool_decide_eq_true in Hsil. rewrite on_close_sockets.
    split.
    + assert (wss_clients (on_close ws' (transport_closed ws' s))
              = wss_clients (transport_closed ws' s)) as ->.
      { unfold on_close.
        destruct (if_truthy (userId_of (transport_closed ws' s) ws'));
          [|done].
        by case_bool_decide. }
      simpl. apply list_elem_of_filter. split; [congruence|done].
    + simpl. rewrite lookup_alter_ne by done. by exists c.
  - done.
Qed.

Lemma silent_run evs s ws c :
  wf s -> forallb (silent ws) evs = true ->
  ws ∈ wss_clients s -> sockets s !! ws = Some c ->
  ws ∈ wss_clients (run evs s).1 /\
  exists c', sockets (run evs s).1 !! ws = Some c' /\ isAlive c' = isAlive c.
Proof.
  revert s c. induction evs as [|e evs IH]; intros s c Hwf Hall Hin Hc.
  - split; [done|by exists c].
  - simpl in Hall. apply andb_true_iff in Hall as [He Hall].
    rewrite run_cons. simpl.
    destruct (silent_step e s ws c Hwf He Hin Hc) as (Hin1 & c1 & Hc1 & Ha1).
    destruct (IH (step e s).1 c1 (step_wf e s Hwf) Hall Hin1 Hc1)
      as (Hin2 & c2 & Hc2 & Ha2).
    split; [done|]. exists c2. split; [done|]. congruence.
Qed.

(** ** The close events that follow a sweep *)

Lemma get_delete_Some {V} (m : JsMap.t V) k k' v :
  JsMap.get (JsMap.delete m k) k' = Some v -> JsMap.get m k' = Some v.
Proof.
  destruct (same_value_zero k k') eqn:E.
  - rewrite <- (get_same_key _ _ _ E). by rewrite get_delete_same.
  - by rewrite get_delete_other.
Qed.

Lemma terminated_elem out ws : Terminate ws ∈ out -> ws ∈ terminated out.
Proof.
  intros Hin. unfold terminated. apply list_elem_of_omap.
  by exists (Terminate ws).
Qed.

Lemma run_closes_cons ws l s :
  (run (map Close (ws :: l)) s).1
  = (run (map Close l) (on_close ws (transport_closed ws s))).1.
Proof. simpl map. by rewrite run_cons. Qed.

(** Close events add no entry to the registry. *)
Lemma run_closes_absent l s k :
  JsMap.get (clients s) k = None ->
  JsMap.get (clients (run (map Close l) s).1) k = None.
Proof.
  revert s. induction l as [|ws l IH]; intros s Hnone; [done|].
  rewrite run_closes_cons. apply IH.
  destruct (JsMap.get (clients (on_close ws (transport_closed ws s))) k)
    as [v|] eqn:E; [|done].
  assert (JsMap.get (clients s) k = Some v) as Hv; [|congruence].
  revert E. unfold on_close.
  destruct (if_truthy (userId_of (transport_closed ws s) ws)) as [u|]; [|done].
  destruct (bool_decide (JsMap.get _ u = Some ws)); [|done].
  simpl. apply get_delete_Some.
Qed.

(** Among close events that include the one of [ws], the entry under the
    userId of [ws] goes when it stores [ws]. *)
Lemma run_closes_removes l s ws u :
  wf s -> ws ∈ l -> userId_of s ws = Some u ->
  JsMap.get (clients s) u = Some ws ->
  JsMap.get (clients (run (map Close l) s).1) u = None.
Proof.
  revert s. induction l as [|ws' l IH]; intros s Hwf Hin Hu Hget;
    [by apply elem_of_nil in Hin|].
  rewrite run_closes_cons.
  pose proof (transport_closed_wf ws' s Hwf) as Hwf'.
  destruct (decide (ws' = ws)) as [->|Hne].
  - apply run_closes_absent.
    destruct (on_close_spec ws (transport_closed ws s) Hwf') as (Hrm & _).
    apply Hrm; by rewrite ?userId_of_transport_closed.
  - apply elem_of_cons in Hin as [?|Hin]; [congruence|].
    apply IH; [by apply on_close_wf|done| |].
    + by rewrite userId_of_on_close, userId_of_transport_closed.
    + apply on_close_keeps_others; [done|congruence].
Qed.

(** Close events leave the entries that [ws] holds under keys other than
    its userId. *)
Lemma run_closes_keeps l s ws k :
  wf s ->
  (forall u, userId_of s ws = Some u -> same_value_zero u k = false) ->
  JsMap.get (clients s) k = Some ws ->
  JsMap.get (clients (run (map Close l) s).1) k = Some ws.
Proof.
  revert s. induction l as [|ws' l IH]; intros s Hwf Hother Hget; [done|].
  rewrite run_closes_cons.
  pose proof (transport_closed_wf ws' s Hwf) as Hwf'.
  apply IH; [by apply on_close_wf| |].
  - intros u. rewrite userId_of_on_close, userId_of_transport_closed.
    apply Hother.
  - destruct (decide (ws' = ws)) as [->|Hne];
      [|apply on_close_keeps_others; [done|congruence]].
    destruct (on_close_spec ws (transport_closed ws s) Hwf')
      as (_ & Hkeep & _ & Hnone).
    rewrite userId_of_transport_closed, clients_transport_closed in Hkeep, Hnone.
    destruct (userId_of s ws) as [u|] eqn:Hu.
    + rewrite (Hkeep u k eq_refl (Hother u eq_refl)). done.
    + by rewrite (Hnone eq_refl).
Qed.

(** C8, as amended. Take a connection in [wss.clients] whose [isAlive] is
    true (it has just connected or answered a probe) and let it answer no
    further probe: the next tick probes it and does not terminate it; the
    tick after that terminates it and sends no probe, so the socket is no
    longer open, and its close event is among those that follow the sweep.
    Once these are handled, the registry entry under the userId the
    connection identified as last is gone if it stored the connection,
    while the entries that store the connection under other keys are still
    there. *)
Theorem unresponsive_connection_terminated
    (s : server) (ws : nat) (c : connection) (evs0 evs1 : list event) :
  reachable s ->
  ws ∈ wss_clients s -> sockets s !! ws = Some c -> isAlive c = true ->
  forallb (silent ws) evs0 = true -> forallb (silent ws) evs1 = true ->
  let t1 := heartbeat (run evs0 s).1 in
  let t2 := heartbeat (run evs1 t1.1).1 in
  let s3 := (run (closes_after t2.2) t2.1).1 in
  Ping ws ∈ t1.2 /\ (Terminate ws ∉ t1.2) /\
  Terminate ws ∈ t2.2 /\ (Ping ws ∉ t2.2) /\
  is_open t2.1 ws = false /\
  Close ws ∈ closes_after t2.2 /\
  (forall u, userId_of t2.1 ws = Some u ->
     JsMap.get (clients t2.1) u = Some ws ->
     JsMap.get (clients s3) u = None) /\
  (forall k,
     (forall u, userId_of t2.1 ws = Some u -> same_value_zero u k = false) ->
     JsMap.get (clients t2.1) k = Some ws ->
     JsMap.get (clients s3) k = Some ws).
Proof.
  intros Hr Hin Hc Ha Hq0 Hq1 t1 t2 s3.
  pose proof (reachable_wf s Hr) as Hwf.
  pose proof (run_wf evs0 s Hwf) as Hwf0.
  destruct (silent_run evs0 s ws c Hwf Hq0 Hin Hc) as (Hin0 & c0 & Hc0 & Ha0).
  rewrite Ha in Ha0.
  destruct (heartbeat_fold_probes ws (wss_clients (run evs0 s).1)
              (run evs0 s).1 [] c0 Hin0 (wf_nodup _ Hwf0) Hc0 Ha0)
    as (Hp1 & Ht1 & Hs1).
  fold (heartbeat (run evs0 s).1) in Hp1, Ht1, Hs1. fold t1 in Hp1, Ht1, Hs1.
  assert (wf t1.1) as Hwf1
    by (eapply same_identity_wf; [apply heartbeat_same_identity|done]).
  assert (ws ∈ wss_clients t1.1) as Hin1.
  { destruct (heartbeat_same_identity (run evs0 s).1) as (_ & Hw & _).
    subst t1. by rewrite Hw. }
  pose proof (run_wf evs1 t1.1 Hwf1) as Hwf2.
  destruct (silent_run evs1 t1.1 ws _ Hwf1 Hq1 Hin1 Hs1)
    as (Hin2 & c2 & Hc2 & Ha2).
  simpl in Ha2.
  destruct (heartbeat_fold_terminates ws (wss_clients (run evs1 t1.1).1)
              (run evs1 t1.1).1 [] c2 Hin2 Hc2 Ha2)
    as (Ht2 & c3 & Hc3 & Hr3).
  destruct (heartbeat_fold_dead ws (wss_clients (run evs1 t1.1).1)
              (run evs1 t1.1).1 [] c2 Hc2 Ha2) as (_ & Hp2).
  fold (heartbeat (run evs1 t1.1).1) in Ht2, Hc3, Hp2.
  fold t2 in Ht2, Hc3, Hp2.
  assert (wf t2.1) as Hwf3
    by (eapply same_identity_wf; [apply heartbeat_same_identity|done]).
  pose proof (terminated_elem _ _ Ht2) as Hterm.
  split_and!.
  - done.
  - intros H. apply Ht1 in H. by apply elem_of_nil in H.
  - done.
  - intros H. apply Hp2 in H. by apply elem_of_nil in H.
  - unfold is_open. rewrite Hc3. by apply bool_decide_eq_false.
  - unfold closes_after. apply list_elem_of_fmap. by exists ws.
  - intros u Hu Hget. subst s3. unfold closes_after.
    by apply (run_closes_removes _ _ ws).
  - intros k Hother Hget. subst s3. unfold closes_after.
    by apply run_closes_keeps.
Qed.

Lemma unresponsive_connection_terminated_witness :
  let evs0 := [Frame 1 (Normal (send_msg 9 (JStr "bob") (JStr "Zm9v")))] in
  let evs1 := [Pong 0; Frame 1 (Normal (JObj 9 [("type", JStr "ping")]))] in
  let t1 := heartbeat (run evs0 bob_online).1 in
  let t2 := heartbeat (run evs1 t1.1).1 in
  reachable bob_online /\ 1 ∈ wss_clients bob_online /\
  forallb (silent 1) evs0 = true /\ forallb (silent 1) evs1 = true /\
  Ping 1 ∈ t1.2 /\ (Terminate 1 ∉ t1.2) /\
  Terminate 1 ∈ t2.2 /\ (Ping 1 ∉ t2.2) /\
  is_open t2.1 1 = false /\
  Close 1 ∈ closes_after t2.2 /\
  JsMap.get (clients (run (closes_after t2.2) t2.1).1) (JStr "bob") = None.
Proof.
  intros evs0 evs1 t1 t2.
  assert (reachable bob_online) as Hr by (eexists; reflexivity).
  assert (1 ∈ wss_clients bob_online) as Hin by (right; left).
  assert (sockets bob_online !! 1
          = Some {| readyState := OPEN; isAlive := true;
                    userId := Some (JStr "bob") |}) as Hc
    by (vm_compute; reflexivity).
  assert (forallb (silent 1) evs0 = true) as Hq0 by reflexivity.
  assert (forallb (silent 1) evs1 = true) as Hq1 by reflexivity.
  pose proof (unresponsive_connection_terminated bob_online 1 _ evs0 evs1
                Hr Hin Hc eq_refl Hq0 Hq1)
    as (H1 & H2 & H3 & H4 & H5 & H6 & H7 & _).
  split; [exact Hr|]. split; [exact Hin|]. split; [exact Hq0|].
  split; [exact Hq1|]. split; [exact H1|]. split; [exact H2|].
  split; [exact H3|]. split; [exact H4|]. split; [exact H5|].
  split; [exact H6|].
  apply H7; vm_compute; reflexivity.
Defined.

(** C8 as stated fails for a connection that identified twice: socket 0
    identified as [alice], then as [bob], and answers no probe. The second
    tick terminates it; after the close event that follows, the entry of
    [alice] still stores socket 0. *)
Lemma terminated_connection_keeps_earlier_entry :
  Terminate 0 ∈ (heartbeat (heartbeat alice_then_bob).1).2 /\
  closes_after (heartbeat (heartbeat alice_then_bob).1).2 = [Close 0] /\
  JsMap.get (clients (heartbeat (heartbeat alice_then_bob).1).1) (JStr "alice")
  = Some 0 /\
  JsMap.get
    (clients (run (closes_after (heartbeat (heartbeat alice_then_bob).1).2)
                (heartbeat (heartbeat alice_then_bob).1).1).1) (JStr "alice")
  = Some 0 /\
  JsMap.get
    (clients (run (closes_after (heartbeat (heartbeat alice_then_bob).1).2)
                (heartbeat (heartbeat alice_then_bob).1).1).1) (JStr "bob")
  = None.
Proof. split_and!; vm_compute; try reflexivity. left. Qed.

(* ===================================================================== *)
(** * Further properties of the handlers *)

(** ** Key directory *)

(** X1 (register, then fetch). A register request with a non-empty userId
    other than [__proto__] and a non-empty publicKey is answered 200
    [{ok: true}], and [GET /keys/:userId] then answers 200 with that userId
    and that key, whatever the store held before. *)
Theorem register_then_get
    (pk : KeyDirectory.store) (userId publicKey : string) :
  userId <> "" -> userId <> "__proto__" -> publicKey <> "" ->
  let r := KeyDirectory.post_register
             (KeyDirectory.register_req userId publicKey) pk in
  r.2 = {| KeyDirectory.status := 200; KeyDirectory.json := KeyDirectory.OkBody |} /\
  KeyDirectory.get_key userId r.1
  = {| KeyDirectory.status := 200;
       KeyDirectory.json :=
         KeyDirectory.KeyBody userId (KeyDirectory.OwnValue publicKey) |}.
Proof.
  intros Hu Hproto Hk r. subst r.
  unfold KeyDirectory.post_register, KeyDirectory.register_req. simpl.
  apply String.eqb_neq in Hu, Hk. rewrite Hu, Hk. simpl.
  split; [done|]. unfold KeyDirectory.write.
  apply String.eqb_neq in Hproto. rewrite Hproto.
  apply get_key_found; [apply lookup_insert_eq|by apply String.eqb_neq].
Qed.

Lemma register_then_get_witness :
  "alice" <> "" /\ "alice" <> "__proto__" /\ "QUJD" <> "" /\
  KeyDirectory.get_key "alice"
    (KeyDirectory.post_register (KeyDirectory.register_req "alice" "QUJD")
       KeyDirectory.publicKeys_init).1
  = {| KeyDirectory.status := 200;
       KeyDirectory.json :=
         KeyDirectory.KeyBody "alice" (KeyDirectory.OwnValue "QUJD") |}.
Proof.
  assert ("alice" <> "") as H1 by discriminate.
  assert ("alice" <> "__proto__") as H2 by discriminate.
  assert ("QUJD" <> "") as H3 by discriminate.
  split; [exact H1|]. split; [exact H2|]. split; [exact H3|].
  exact (proj2 (register_then_get KeyDirectory.publicKeys_init "alice" "QUJD"
                  H1 H2 H3)).
Defined.

(** X2 (register without a field). A register request whose userId or
    publicKey is absent or the empty string is answered 400 and stores
    nothing. *)
Theorem register_requires_both_fields
    (req : KeyDirectory.register_body) (pk : KeyDirectory.store) :
  KeyDirectory.req_userId req = None \/
  KeyDirectory.req_userId req = Some "" \/
  KeyDirectory.req_publicKey req = None \/
  KeyDirectory.req_publicKey req = Some "" ->
  KeyDirectory.post_register req pk
  = (pk, {| KeyDirectory.status := 400;
            KeyDirectory.json :=
              KeyDirectory.ErrorBody "userId and publicKey required" |}).
Proof.
  intros H. unfold KeyDirectory.post_register.
  destruct req as [[u|] [k|]]; simpl in *;
    destruct H as [H|[H|[H|H]]]; simplify_eq; simpl; try done.
  - by destruct (String.eqb u "").
  - by destruct (String.eqb u "").
Qed.

Lemma register_requires_both_fields_witness :
  KeyDirectory.req_publicKey
    {| KeyDirectory.req_userId := Some "alice";
       KeyDirectory.req_publicKey := None |} = None /\
  KeyDirectory.post_register
    {| KeyDirectory.req_userId := Some "alice";
       KeyDirectory.req_publicKey := None |} KeyDirectory.publicKeys_init
  = (KeyDirectory.publicKeys_init,
     {| KeyDirectory.status := 400;
        KeyDirectory.json :=
          KeyDirectory.ErrorBody "userId and publicKey required" |}).
Proof.
  split; [reflexivity|].
  exact (register_requires_both_fields
           {| KeyDirectory.req_userId := Some "alice";
              KeyDirectory.req_publicKey := None |}
           KeyDirectory.publicKeys_init
           (or_intror (or_intror (or_introl eq_refl)))).
Defined.

Lemma register_all_app reqs1 reqs2 pk :
  KeyDirectory.register_all (reqs1 ++ reqs2) pk
  = KeyDirectory.register_all reqs2 (KeyDirectory.register_all reqs1 pk).
Proof. unfold KeyDirectory.register_all. apply foldl_app. Qed.

(** What a register request does to the own properties. *)
Lemma post_register_lookup req pk name :
  (KeyDirectory.post_register req pk).1 !! name = pk !! name \/
  exists k, k <> "" /\ name <> "__proto__" /\
            KeyDirectory.req_userId req = Some name /\
            (KeyDirectory.post_register req pk).1 !! name = Some k.
Proof.
  unfold KeyDirectory.post_register.
  destruct req as [[u|] [k|]]; simpl; try by left.
  2: { destruct (String.eqb u ""); by left. }
  destruct (String.eqb u "") eqn:Eu; simpl; [by left|].
  destruct (String.eqb k "") eqn:Ek; simpl; [by left|].
  unfold KeyDirectory.write.
  destruct (String.eqb u "__proto__") eqn:Ep; [by left|].
  destruct (decide (u = name)) as [->|Hne].
  - right. exists k. rewrite lookup_insert_eq.
    apply String.eqb_neq in Ek, Ep. by split_and!.
  - left. by apply lookup_insert_ne.
Qed.

(** The stores that requests build hold no empty key and no own property
    [__proto__]. *)
Lemma register_all_stored reqs name k :
  KeyDirectory.register_all reqs KeyDirectory.publicKeys_init !! name = Some k ->
  k <> "" /\ name <> "__proto__".
Proof.
  induction reqs as [|req reqs IH] using rev_ind.
  - unfold KeyDirectory.register_all, KeyDirectory.publicKeys_init. simpl.
    by rewrite lookup_empty.
  - rewrite register_all_app. unfold KeyDirectory.register_all at 1. simpl.
    destruct (post_register_lookup req
                (KeyDirectory.register_all reqs KeyDirectory.publicKeys_init)
                name) as [->|(k' & Hk' & Hp & _ & ->)]; [done|].
    by intros [= <-].
Qed.

(** X3 (register under [__proto__]). As long as every register request so
    far carried strings as userId and publicKey, a register request for the
    userId [__proto__] with a string publicKey is answered 200 [{ok: true}]
    but stores nothing, and [GET /keys/__proto__] answers 200 with the
    inherited member instead of a stored key. *)
Theorem register_proto_stores_nothing
    (reqs : list KeyDirectory.register_body) (publicKey : string) :
  publicKey <> "" ->
  let pk := KeyDirectory.register_all reqs KeyDirectory.publicKeys_init in
  KeyDirectory.post_register
    (KeyDirectory.register_req "__proto__" publicKey) pk
  = (pk, {| KeyDirectory.status := 200;
            KeyDirectory.json := KeyDirectory.OkBody |}) /\
  KeyDirectory.get_key "__proto__" pk
  = {| KeyDirectory.status := 200;
       KeyDirectory.json :=
         KeyDirectory.KeyBody "__proto__" (KeyDirectory.Builtin "__proto__") |}.
Proof.
  intros Hk pk. split.
  - unfold KeyDirectory.post_register, KeyDirectory.register_req. simpl.
    apply String.eqb_neq in Hk. by rewrite Hk.
  - unfold KeyDirectory.get_key, KeyDirectory.read.
    destruct (pk !! "__proto__") as [k|] eqn:E; [|done].
    by apply register_all_stored in E as [_ ?].
Qed.

Lemma register_proto_stores_nothing_witness :
  "QUJD" <> "" /\
  KeyDirectory.post_register (KeyDirectory.register_req "__proto__" "QUJD")
    (KeyDirectory.register_all [KeyDirectory.register_req "alice" "QUJD"]
       KeyDirectory.publicKeys_init)
  = (KeyDirectory.register_all [KeyDirectory.register_req "alice" "QUJD"]
       KeyDirectory.publicKeys_init,
     {| KeyDirectory.status := 200; KeyDirectory.json := KeyDirectory.OkBody |}).
Proof.
  assert ("QUJD" <> "") as H by discriminate.
  split; [exact H|].
  exact (proj1 (register_proto_stores_nothing
                  [KeyDirectory.register_req "alice" "QUJD"] "QUJD" H)).
Defined.

(** X4 (other users). A register request under a userId other than
    [__proto__] changes the answer of [GET /keys/:userId] for no userId but
    its own. *)
Theorem register_leaves_other_users
    (req : KeyDirectory.register_body) (pk : KeyDirectory.store)
    (name : string) :
  KeyDirectory.req_userId req <> Some "__proto__" ->
  KeyDirectory.req_userId req <> Some name ->
  KeyDirectory.get_key name (KeyDirectory.post_register req pk).1
  = KeyDirectory.get_key name pk.
Proof.
  intros _ Hne. unfold KeyDirectory.get_key, KeyDirectory.read.
  by rewrite post_register_other.
Qed.

Lemma register_leaves_other_users_witness :
  KeyDirectory.req_userId (KeyDirectory.register_req "bob" "QUJD")
  <> Some "__proto__" /\
  KeyDirectory.req_userId (KeyDirectory.register_req "bob" "QUJD")
  <> Some "alice" /\
  KeyDirectory.get_key "alice"
    (KeyDirectory.post_register (KeyDirectory.register_req "bob" "QUJD")
       KeyDirectory.publicKeys_init).1
  = KeyDirectory.get_key "alice" KeyDirectory.publicKeys_init.
Proof.
  assert (KeyDirectory.req_userId (KeyDirectory.register_req "bob" "QUJD")
          <> Some "__proto__") as Hp by discriminate.
  assert (KeyDirectory.req_userId (KeyDirectory.register_req "bob" "QUJD")
          <> Some "alice") as H by discriminate.
  split; [exact Hp|]. split; [exact H|].
  exact (register_leaves_other_users (KeyDirectory.register_req "bob" "QUJD")
           KeyDirectory.publicKeys_init "alice" Hp H).
Defined.

Lemma get_key_not_found_witness :
  Forall (fun req => KeyDirectory.req_userId req <> Some "__proto__")
    [KeyDirectory.register_req "bob" "QUJD"] /\
  KeyDirectory.inherited "alice" = false /\
  Forall (fun req => KeyDirectory.req_userId req <> Some "alice")
    [KeyDirectory.register_req "bob" "QUJD"] /\
  KeyDirectory.get_key "alice"
    (KeyDirectory.register_all [KeyDirectory.register_req "bob" "QUJD"]
       KeyDirectory.publicKeys_init)
  = {| KeyDirectory.status := 404;
       KeyDirectory.json := KeyDirectory.ErrorBody "not found" |}.
Proof.
  assert (Forall (fun req => KeyDirectory.req_userId req <> Some "__proto__")
            [KeyDirectory.register_req "bob" "QUJD"]) as Hp
    by (repeat constructor; discriminate).
  assert (KeyDirectory.inherited "alice" = false) as Hi
    by (vm_compute; reflexivity).
  assert (Forall (fun req => KeyDirectory.req_userId req <> Some "alice")
            [KeyDirectory.register_req "bob" "QUJD"]) as Hall
    by (repeat constructor; discriminate).
  split; [exact Hp|]. split; [exact Hi|]. split; [exact Hall|].
  exact (get_key_not_found [KeyDirectory.register_req "bob" "QUJD"] "alice"
           Hp Hi Hall).
Defined.

Lemma register_all_keeps reqs pk name :
  is_Some (pk !! name) ->
  is_Some (KeyDirectory.register_all reqs pk !! name).
Proof.
  unfold KeyDirectory.register_all. revert pk.
  induction reqs as [|req reqs IH]; intros pk Hex; [done|].
  simpl. apply IH.
  destruct (post_register_lookup req pk name) as [->|(k & _ & _ & _ & ->)];
    [done|by eexists].
Qed.

(** X6 (keys are never deleted). Once a register request for a userId was
    accepted, [GET /keys/:userId] answers 200 with a stored key after every
    further sequence of register requests. *)
Theorem registered_key_persists
    (before after : list KeyDirectory.register_body)
    (userId publicKey : string) :
  userId <> "" -> userId <> "__proto__" -> publicKey <> "" ->
  exists k,
    KeyDirectory.get_key userId
      (KeyDirectory.register_all
         (before ++ KeyDirectory.register_req userId publicKey :: after)
         KeyDirectory.publicKeys_init)
    = {| KeyDirectory.status := 200;
         KeyDirectory.json :=
           KeyDirectory.KeyBody userId (KeyDirectory.OwnValue k) |}.
Proof.
  intros Hu Hp Hk.
  set (pk := KeyDirectory.register_all
               (before ++ KeyDirectory.register_req userId publicKey :: after)
               KeyDirectory.publicKeys_init).
  assert (is_Some (pk !! userId)) as [k Hget].
  { subst pk. rewrite register_all_app.
    unfold KeyDirectory.register_all at 1. cbn [foldl].
    apply register_all_keeps.
    unfold KeyDirectory.post_register, KeyDirectory.register_req. simpl.
    apply String.eqb_neq in Hu, Hk, Hp. rewrite Hu, Hk. simpl.
    unfold KeyDirectory.write. rewrite Hp. rewrite lookup_insert_eq.
    by eexists. }
  exists k. apply get_key_found; [done|].
  subst pk. by apply register_all_stored in Hget as [? _].
Qed.

Lemma registered_key_persists_witness :
  "alice" <> "" /\ "alice" <> "__proto__" /\ "QUJD" <> "" /\
  exists k,
    KeyDirectory.get_key "alice"
      (KeyDirectory.register_all
         ([] ++ KeyDirectory.register_req "alice" "QUJD"
             :: [KeyDirectory.register_req "bob" "REVG";
                 KeyDirectory.register_req "alice" "R0hJ"])
         KeyDirectory.publicKeys_init)
    = {| KeyDirectory.status := 200;
         KeyDirectory.json :=
           KeyDirectory.KeyBody "alice" (KeyDirectory.OwnValue k) |}.
Proof.
  assert ("alice" <> "") as H1 by discriminate.
  assert ("alice" <> "__proto__") as H2 by discriminate.
  assert ("QUJD" <> "") as H3 by discriminate.
  split; [exact H1|]. split; [exact H2|]. split; [exact H3|].
  exact (registered_key_persists []
           [KeyDirectory.register_req "bob" "REVG";
            KeyDirectory.register_req "alice" "R0hJ"] "alice" "QUJD" H1 H2 H3).
Defined.

(** X7 (the listing and the lookup agree on stored keys). After any
    sequence of register requests, [GET /keys] answers 200 and lists a key
    under a userId exactly when [GET /keys/:userId] answers 200 with that
    key as a stored one; the members that [GET /keys/:userId] finds by
    inheritance are not listed. *)
Theorem listing_agrees_with_lookup
    (reqs : list KeyDirectory.register_body) (name k : string) :
  let pk := KeyDirectory.register_all reqs KeyDirectory.publicKeys_init in
  KeyDirectory.listing_status (KeyDirectory.get_keys pk) = 200 /\
  (KeyDirectory.listing_json (KeyDirectory.get_keys pk) !! name = Some k <->
   KeyDirectory.get_key name pk
   = {| KeyDirectory.status := 200;
        KeyDirectory.json :=
          KeyDirectory.KeyBody name (KeyDirectory.OwnValue k) |}).
Proof.
  intros pk. split; [done|]. simpl. split.
  - intros Hget. apply get_key_found; [done|].
    subst pk. by apply register_all_stored in Hget as [? _].
  - unfold KeyDirectory.get_key, KeyDirectory.read.
    destruct (pk !! name) as [s|] eqn:E.
    + simpl. destruct (String.eqb s ""); simpl; [done|]. by intros [= ->].
    + destruct (KeyDirectory.inherited name); simpl; done.
Qed.

(** ** The message handler *)

(** X8 (identify registers). An [identify] frame with a truthy [userId]
    [u] on an existing socket makes the registry map [u] to the socket and
    the connection Identified as [u]. It is answered with exactly one frame:
    [identified{u}], or, when the conversion of [u] to a string throws in
    the log line that follows the registration (an object [u] with an own
    property [toString]), [error{invalid JSON}], the registration staying
    in place. Entries under other keys, the records of all other sockets
    (so also a previous holder of [u], which is not closed) and
    [wss.clients] are as before. *)
Theorem identify_registers (s : server) (ws : nat) (msg u : jsval) :
  is_Some (sockets s !! ws) -> identify_frame msg u -> truthy u = true ->
  let r := on_frame ws (Normal msg) s in
  r.2 = [Send ws (if to_string_throws u then Error "invalid JSON"
                  else Identified u)] /\
  JsMap.get (clients r.1) u = Some ws /\
  userId_of r.1 ws = Some u /\
  (forall k, same_value_zero u k = false ->
     JsMap.get (clients r.1) k = JsMap.get (clients s) k) /\
  (forall ws', ws' <> ws -> sockets r.1 !! ws' = sockets s !! ws') /\
  is_open r.1 ws = is_open s ws /\
  wss_clients r.1 = wss_clients s.
Proof.
  intros Hex Hmsg Ht r. subst r.
  rewrite (on_frame_identify ws msg u s Hmsg Ht). split_and!.
  - done.
  - apply get_set_same.
  - by apply userId_of_do_identify.
  - intros k Hk. simpl. by apply get_set_other.
  - intros ws' Hne. simpl. by rewrite lookup_alter_ne.
  - unfold is_open. simpl. rewrite lookup_alter_eq.
    by destruct (sockets s !! ws).
  - done.
Qed.

Lemma identify_registers_witness :
  is_Some (sockets bob_online !! 0) /\
  identify_frame (identify_msg 9 (JStr "alice")) (JStr "alice") /\
  truthy (JStr "alice") = true /\
  (on_frame 0 (Normal (identify_msg 9 (JStr "alice"))) bob_online).2
  = [Send 0 (Identified (JStr "alice"))] /\
  JsMap.get
    (clients (on_frame 0 (Normal (identify_msg 9 (JStr "alice"))) bob_online).1)
    (JStr "alice") = Some 0.
Proof.
  assert (is_Some (sockets bob_online !! 0)) as Hex
    by (vm_compute; eexists; reflexivity).
  assert (identify_frame (identify_msg 9 (JStr "alice")) (JStr "alice")) as Hm
    by (split; reflexivity).
  assert (truthy (JStr "alice") = true) as Ht by reflexivity.
  pose proof (identify_registers bob_online 0 _ _ Hex Hm Ht) as (H1 & H2 & _).
  split; [exact Hex|]. split; [exact Hm|]. split; [exact Ht|].
  split; [exact H1|exact H2].
Defined.

(** The calls of the [send] branch. *)
Lemma do_send_calls ws t p s :
  (do_send ws t p s).2 = [Send ws (Offline t)] \/
  exists dest,
    JsMap.get (clients s) t = Some dest /\ is_open s dest = true /\
    (do_send ws t p s).2 = [Send dest (Message p); Send ws (Sent t)].
Proof.
  unfold do_send. destruct (JsMap.get (clients s) t) as [dest|]; [|by left].
  destruct (is_open s dest) eqn:E; [|by left].
  right. by exists dest.
Qed.

(** Closes a branch of the handler that answers with one status frame. *)
Ltac status_reply :=
  left; eexists; split; [|simpl; reflexivity]; reflexivity.

(** The calls of the message handler, branch by branch. *)
Lemma on_frame_calls ws parsed s :
  (exists f, is_status f = true /\ (on_frame ws parsed s).2 = [Send ws f]) \/
  exists msg t p dest,
    parsed = Normal msg /\ send_frame msg t p /\
    truthy t = true /\ truthy p = true /\
    JsMap.get (clients s) t = Some dest /\ is_open s dest = true /\
    (on_frame ws parsed s).2 = [Send dest (Message p); Send ws (Sent t)].
Proof.
  destruct parsed as [msg|e]; [|status_reply].
  unfold on_frame, try_body. simpl.
  destruct (get_field msg "type") as [ty|e] eqn:Ety; simpl;
    [|status_reply].
  destruct (is_string ty "identify") eqn:Hid.
  { destruct (get_field msg "userId") as [uid|e]; simpl; [|status_reply].
    destruct (if_truthy uid) as [u|]; simpl; [|status_reply].
    destruct (to_string_throws u); status_reply. }
  destruct (is_string ty "send") eqn:Hsend.
  2: { destruct (is_string ty "ping"); status_reply. }
  apply is_string_true in Hsend. subst ty.
  destruct (get_field msg "to") as [to|e] eqn:Eto; simpl; [|status_reply].
  destruct (get_field msg "payload") as [pl|e] eqn:Epl; simpl;
    [|status_reply].
  destruct (if_truthy to) as [t|] eqn:Et; [|status_reply].
  destruct (if_truthy pl) as [p|] eqn:Ep; [|status_reply].
  apply if_truthy_Some in Et as [-> Ht], Ep as [-> Hp]. simpl.
  destruct (do_send_calls ws t p s) as [->|(dest & Hget & Hopen & ->)];
    [status_reply|].
  right. exists msg, t, p, dest. by split_and!.
Qed.

(** X9 (one answer per frame). Whatever arrives on a connection, well formed
    or not, the handler answers with exactly one status frame to the sender;
    the only other call it can make is one [message] frame, sent before the
    status frame. *)
Theorem every_frame_answered_once
    (ws : nat) (parsed : completion jsval) (s : server) :
  exists f, is_status f = true /\
    ((on_frame ws parsed s).2 = [Send ws f] \/
     exists dest p, (on_frame ws parsed s).2
                    = [Send dest (Message p); Send ws f]).
Proof.
  destruct (on_frame_calls ws parsed s)
    as [(f & Hf & ->)|(msg & t & p & dest & _ & _ & _ & _ & _ & _ & ->)].
  - exists f. split; [done|by left].
  - exists (Sent t). split; [done|]. right. by exists dest, p.
Qed.

(** X10 (no delivery to a socket that is not open). A [message] frame is
    handed to a socket only by a [send] frame with truthy [to] and
    [payload], whose [to] the registry maps to that socket, while the socket
    is open; the frame carries the payload of the request. *)
Theorem delivery_only_to_open_recipient
    (ws dest : nat) (parsed : completion jsval) (s : server) (p : jsval) :
  Send dest (Message p) ∈ (on_frame ws parsed s).2 ->
  exists msg t,
    parsed = Normal msg /\ send_frame msg t p /\
    truthy t = true /\ truthy p = true /\
    JsMap.get (clients s) t = Some dest /\ is_open s dest = true.
Proof.
  intros Hin.
  destruct (on_frame_calls ws parsed s)
    as [(f & Hf & Hout)|(msg & t & p' & dest' & -> & Hmsg & Ht & Hp & Hget
                         & Hopen & Hout)];
    rewrite Hout in Hin.
  - apply list_elem_of_singleton in Hin. by simplify_eq.
  - apply elem_of_cons in Hin as [Hin|Hin];
      [|by apply list_elem_of_singleton in Hin].
    simplify_eq. by exists msg, t.
Qed.

Lemma delivery_only_to_open_recipient_witness :
  Send 1 (Message (JStr "Zm9v"))
  ∈ (on_frame 0 (Normal (send_msg 9 (JStr "bob") (JStr "Zm9v"))) bob_online).2 /\
  exists msg t,
    Normal (send_msg 9 (JStr "bob") (JStr "Zm9v")) = Normal msg /\
    send_frame msg t (JStr "Zm9v") /\
    truthy t = true /\ truthy (JStr "Zm9v") = true /\
    JsMap.get (clients bob_online) t = Some 1 /\ is_open bob_online 1 = true.
Proof.
  assert (Send 1 (Message (JStr "Zm9v"))
          ∈ (on_frame 0 (Normal (send_msg 9 (JStr "bob") (JStr "Zm9v")))
               bob_online).2) as Hin by (vm_compute; left).
  split; [exact Hin|].
  exact (delivery_only_to_open_recipient 0 1 _ bob_online (JStr "Zm9v") Hin).
Defined.

(** X11 (messages that are not objects). A well-formed JSON text whose
    value is not an object never reaches a branch of the protocol: [null]
    is answered with [error{invalid JSON}] (reading its [type] throws), any
    other value with [error{unknown message type}]; the server stays as it
    was. *)
Theorem non_object_message_rejected (ws : nat) (msg : jsval) (s : server) :
  (forall addr props, msg <> JObj addr props) ->
  on_frame ws (Normal msg) s
  = (s, [Send ws (Error (match msg with
                         | JNull => "invalid JSON"
                         | _ => "unknown message type"
                         end))]).
Proof.
  intros Hobj. destruct msg; try done. by destruct (Hobj addr props).
Qed.

Lemma non_object_message_rejected_witness :
  (forall addr props, JArr 3 [JStr "identify"] <> JObj addr props) /\
  on_frame 0 (Normal (JArr 3 [JStr "identify"])) bob_online
  = (bob_online, [Send 0 (Error "unknown message type")]).
Proof.
  assert (forall addr props, JArr 3 [JStr "identify"] <> JObj addr props) as H
    by (intros addr props; discriminate).
  split; [exact H|].
  exact (non_object_message_rejected 0 (JArr 3 [JStr "identify"]) bob_online H).
Defined.

(** X12 (unknown type). A message whose [type] is absent or is anything
    but the strings [identify], [send] and [ping] is answered with
    [error{unknown message type}]; the server stays as it was. *)
Theorem unknown_type_rejected
    (ws : nat) (msg : jsval) (ty : option jsval) (s : server) :
  get_field msg "type" = Normal ty ->
  ty <> Some (JStr "identify") -> ty <> Some (JStr "send") ->
  ty <> Some (JStr "ping") ->
  on_frame ws (Normal msg) s
  = (s, [Send ws (Error "unknown message type")]).
Proof.
  intros Hty H1 H2 H3. unfold on_frame, try_body. simpl. rewrite Hty. simpl.
  destruct (is_string ty "identify") eqn:E1;
    [by apply is_string_true in E1|].
  destruct (is_string ty "send") eqn:E2; [by apply is_string_true in E2|].
  destruct (is_string ty "ping") eqn:E3; [by apply is_string_true in E3|].
  done.
Qed.

Lemma unknown_type_rejected_witness :
  get_field (JObj 3 [("type", JStr "Identify"); ("userId", JStr "alice")])
    "type" = Normal (Some (JStr "Identify")) /\
  on_frame 0
    (Normal (JObj 3 [("type", JStr "Identify"); ("userId", JStr "alice")]))
    bob_online
  = (bob_online, [Send 0 (Error "unknown message type")]).
Proof.
  assert (get_field
            (JObj 3 [("type", JStr "Identify"); ("userId", JStr "alice")])
            "type" = Normal (Some (JStr "Identify"))) as H by reflexivity.
  split; [exact H|].
  apply (unknown_type_rejected 0 _ (Some (JStr "Identify")) bob_online H);
    discriminate.
Defined.

(** X13 (send without a field). A [send] frame whose [to] or [payload] is
    absent or falsy is answered with [error{send requires to and payload}];
    nothing is delivered, the registry is not consulted and the server
    stays as it was. *)
Theorem send_requires_to_and_payload
    (ws : nat) (msg : jsval) (to payload : option jsval) (s : server) :
  get_field msg "type" = Normal (Some (JStr "send")) ->
  get_field msg "to" = Normal to ->
  get_field msg "payload" = Normal payload ->
  truthy_opt to = false \/ truthy_opt payload = false ->
  on_frame ws (Normal msg) s
  = (s, [Send ws (Error "send requires to and payload")]).
Proof.
  intros Hty Hto Hpl Hf. unfold on_frame, try_body. simpl.
  rewrite Hty. simpl. rewrite Hto. simpl. rewrite Hpl. simpl.
  destruct to as [t|], payload as [p|]; simpl in *;
    destruct Hf as [Hf|Hf]; try done; rewrite ?Hf; try done.
  - by destruct (truthy t).
  - by destruct (truthy t).
Qed.

Lemma send_requires_to_and_payload_witness :
  get_field (JObj 3 [("type", JStr "send"); ("to", JStr "bob")]) "type"
  = Normal (Some (JStr "send")) /\
  get_field (JObj 3 [("type", JStr "send"); ("to", JStr "bob")]) "payload"
  = Normal None /\
  on_frame 0 (Normal (JObj 3 [("type", JStr "send"); ("to", JStr "bob")]))
    bob_online
  = (bob_online, [Send 0 (Error "send requires to and payload")]).
Proof.
  split; [reflexivity|]. split; [reflexivity|].
  exact (send_requires_to_and_payload 0
           (JObj 3 [("type", JStr "send"); ("to", JStr "bob")])
           (Some (JStr "bob")) None bob_online eq_refl eq_refl eq_refl
           (or_intror eq_refl)).
Defined.

(** ** The heartbeat, sweep by sweep *)

Lemma heartbeat_visit_calls s out ws :
  (heartbeat_visit (s, out) ws).2 = out ++ heartbeat_call s ws.
Proof.
  unfold heartbeat_visit, heartbeat_call.
  destruct (sockets s !! ws) as [c|]; [|by rewrite app_nil_r].
  by destruct (isAlive c).
Qed.

Lemma heartbeat_call_agree s s' l :
  (forall ws, ws ∈ l -> sockets s' !! ws = sockets s !! ws) ->
  l ≫= heartbeat_call s' = l ≫= heartbeat_call s.
Proof.
  induction l as [|ws l IH]; intros Hagree; [done|].
  rewrite !bind_cons. rewrite IH.
  - unfold heartbeat_call. rewrite Hagree; [done|left].
  - intros ws' Hin. apply Hagree. by right.
Qed.

Lemma heartbeat_fold_calls l s out :
  NoDup l ->
  (foldl heartbeat_visit (s, out) l).2 = out ++ (l ≫= heartbeat_call s).
Proof.
  revert s out. induction l as [|ws l IH]; intros s out Hnd; cbn [foldl].
  - by rewrite app_nil_r.
  - apply NoDup_cons in Hnd as [Hnin Hnd].
    destruct (heartbeat_visit (s, out) ws) as [s1 out1] eqn:E.
    rewrite IH by done. rewrite bind_cons, app_assoc.
    assert (out1 = out ++ heartbeat_call s ws) as ->.
    { change out1 with (s1, out1).2. rewrite <- E.
      apply heartbeat_visit_calls. }
    f_equal. apply heartbeat_call_agree. intros ws' Hin.
    assert (ws' <> ws) as Hne by (intros ->; done).
    destruct (heartbeat_visit_other s out ws' ws Hne) as [Hs _].
    by rewrite E in Hs.
Qed.

Lemma heartbeat_call_inv s ws e :
  e ∈ heartbeat_call s ws -> e = Ping ws \/ e = Terminate ws.
Proof.
  unfold heartbeat_call. destruct (sockets s !! ws) as [c|];
    [|by intros ?%elem_of_nil].
  destruct (isAlive c); intros ->%list_elem_of_singleton; auto.
Qed.

Lemma heartbeat_calls_inv s e :
  NoDup (wss_clients s) -> e ∈ (heartbeat s).2 ->
  exists ws, ws ∈ wss_clients s /\ (e = Ping ws \/ e = Terminate ws).
Proof.
  intros Hnd. unfold heartbeat. rewrite heartbeat_fold_calls by done. simpl.
  intros (ws & He & Hin)%list_elem_of_bind.
  exists ws. split; [done|]. by apply (heartbeat_call_inv s).
Qed.

(** X15 (one sweep). A tick makes exactly one call per socket of
    [wss.clients], in their order: a probe if the socket's [isAlive] was
    true, [terminate] if it was false. After the tick [isAlive] is false on
    every socket of [wss.clients]; sockets outside of it, the registry and
    [wss.clients] are as before. *)
Theorem heartbeat_sweep (s : server) :
  reachable s ->
  let r := heartbeat s in
  r.2 = wss_clients s ≫= heartbeat_call s /\
  (forall ws, ws ∈ wss_clients s ->
     exists c, sockets r.1 !! ws = Some c /\ isAlive c = false) /\
  (forall ws, ws ∉ wss_clients s -> sockets r.1 !! ws = sockets s !! ws) /\
  clients r.1 = clients s /\
  wss_clients r.1 = wss_clients s.
Proof.
  intros Hr r. pose proof (reachable_wf s Hr) as Hwf. subst r.
  destruct (heartbeat_same_identity s) as (Hc & Hw & _).
  split_and!; try done.
  - unfold heartbeat. by rewrite (heartbeat_fold_calls _ s [] (wf_nodup s Hwf)).
  - intros ws Hin. destruct (wf_live s Hwf ws Hin) as [c Hs].
    destruct (isAlive c) eqn:Ha.
    + destruct (heartbeat_fold_probes ws (wss_clients s) s [] c Hin
                  (wf_nodup s Hwf) Hs Ha) as (_ & _ & Hs').
      by eexists.
    + destruct (heartbeat_fold_dead ws (wss_clients s) s [] c Hs Ha)
        as ((c' & Hs' & Ha' & _) & _).
      by exists c'.
  - intros ws Hnin.
    by destruct (heartbeat_fold_unvisited ws (wss_clients s) s [] Hnin)
      as (Hs & _).
Qed.

Lemma heartbeat_sweep_witness :
  reachable bob_online /\
  (heartbeat bob_online).2 = [Ping 0; Ping 1] /\
  (heartbeat (heartbeat bob_online).1).2 = [Terminate 0; Terminate 1].
Proof.
  assert (reachable bob_online) as Hr by (eexists; reflexivity).
  assert (reachable (heartbeat bob_online).1) as Hr'
    by (exists [Connection; Connection;
                Frame 1 (Normal (identify_msg 7 (JStr "bob"))); Tick];
        reflexivity).
  split; [exact Hr|]. split.
  - rewrite (proj1 (heartbeat_sweep bob_online Hr)). vm_compute. reflexivity.
  - rewrite (proj1 (heartbeat_sweep (heartbeat bob_online).1 Hr')).
    vm_compute. reflexivity.
Defined.

(** ** Connections between ticks and after their close *)

(** An event that is neither the close of [ws] nor a tick keeps the
    [readyState] of [ws], its membership in [wss.clients], and an [isAlive]
    that is true. *)
Lemma steady_step e s ws c :
  wf s -> steady ws e = true -> sockets s !! ws = Some c ->
  (ws ∈ wss_clients s -> ws ∈ wss_clients (step e s).1) /\
  exists c', sockets (step e s).1 !! ws = Some c' /\
             readyState c' = readyState c /\
             (isAlive c = true -> isAlive c' = true).
Proof.
  intros Hwf Hst Hc. destruct e as [|ws' parsed|ws'|ws'|]; simpl in *.
  - split; [intros ?; apply elem_of_app; by left|]. exists c.
    split; [|done]. rewrite lookup_insert_ne; [done|].
    assert (ws < next_socket s) by (apply (wf_fresh s Hwf); by eexists). lia.
  - destruct (on_frame_inv ws' parsed s) as [->|(msg & v & _ & _ & _ & ->)];
      [split; [done|by exists c]|].
    simpl. split; [done|].
    destruct (decide (ws = ws')) as [<-|Hne].
    + rewrite lookup_alter_eq, Hc. simpl. by eexists.
    + rewrite lookup_alter_ne by done. by exists c.
  - split; [done|]. destruct (decide (ws = ws')) as [<-|Hne].
    + rewrite lookup_alter_eq, Hc. simpl. by eexists.
    + rewrite lookup_alter_ne by done. by exists c.
  - apply bool_decide_eq_true in Hst. rewrite on_close_sockets. split.
    + assert (wss_clients (on_close ws' (transport_closed ws' s))
              = wss_clients (transport_closed ws' s)) as ->.
      { unfold on_close.
        destruct (if_truthy (userId_of (transport_closed ws' s) ws'));
          [|done].
        by case_bool_decide. }
      simpl. intros Hin. apply list_elem_of_filter. split; [congruence|done].
    + simpl. rewrite lookup_alter_ne by done. by exists c.
  - done.
Qed.

Lemma steady_run evs s ws c :
  wf s -> forallb (steady ws) evs = true -> sockets s !! ws = Some c ->
  (ws ∈ wss_clients s -> ws ∈ wss_clients (run evs s).1) /\
  exists c', sockets (run evs s).1 !! ws = Some c' /\
             readyState c' = readyState c /\
             (isAlive c = true -> isAlive c' = true).
Proof.
  revert s c. induction evs as [|e evs IH]; intros s c Hwf Hall Hc.
  - split; [done|by exists c].
  - simpl in Hall. apply andb_true_iff in Hall as [He Hall].
    rewrite run_cons. simpl.
    destruct (steady_step e s ws c Hwf He Hc) as (Hin1 & c1 & Hc1 & Hr1 & Ha1).
    destruct (IH (step e s).1 c1 (step_wf e s Hwf) Hall Hc1)
      as (Hin2 & c2 & Hc2 & Hr2 & Ha2).
    split; [auto|]. exists c2. split_and!; [done|congruence|auto].
Qed.

(** X16 (a responsive connection survives). When a pong of a connection
    has arrived and the connection has not closed since, the next tick
    probes it and does not terminate it, whatever else happened in between;
    its [readyState] is what it was. *)
Theorem responsive_connection_survives
    (s : server) (ws : nat) (evs : list event) :
  reachable s -> ws ∈ wss_clients s ->
  forallb (steady ws) evs = true ->
  let t := heartbeat (run evs (step (Pong ws) s).1).1 in
  Ping ws ∈ t.2 /\ (Terminate ws ∉ t.2) /\ is_open t.1 ws = is_open s ws.
Proof.
  intros Hr Hin Hst t. pose proof (reachable_wf s Hr) as Hwf.
  destruct (wf_live s Hwf ws Hin) as [c Hc].
  assert (wf (step (Pong ws) s).1) as Hwf1 by (by apply step_wf).
  assert (sockets (step (Pong ws) s).1 !! ws = Some (set_isAlive true c))
    as Hc1 by (simpl; by rewrite lookup_alter_eq, Hc).
  destruct (steady_run evs _ ws _ Hwf1 Hst Hc1) as (Hin2 & c2 & Hc2 & Hr2 & Ha2).
  specialize (Hin2 Hin). specialize (Ha2 eq_refl). simpl in Hr2.
  pose proof (run_wf evs _ Hwf1) as Hwf2.
  destruct (heartbeat_fold_probes ws _ _ [] c2 Hin2 (wf_nodup _ Hwf2) Hc2 Ha2)
    as (Hp & Ht & Hs).
  fold (heartbeat (run evs (step (Pong ws) s).1).1) in Hp, Ht, Hs.
  fold t in Hp, Ht, Hs. split_and!.
  - done.
  - intros H. apply Ht in H. by apply elem_of_nil in H.
  - unfold is_open. rewrite Hs, Hc. simpl. by rewrite Hr2.
Qed.

Lemma responsive_connection_survives_witness :
  reachable (heartbeat bob_online).1 /\
  1 ∈ wss_clients (heartbeat bob_online).1 /\
  forallb (steady 1) [Close 0; Connection] = true /\
  Ping 1 ∈ (heartbeat (run [Close 0; Connection]
                         (step (Pong 1) (heartbeat bob_online).1).1).1).2.
Proof.
  assert (reachable (heartbeat bob_online).1) as Hr
    by (exists [Connection; Connection;
                Frame 1 (Normal (identify_msg 7 (JStr "bob"))); Tick];
        reflexivity).
  assert (1 ∈ wss_clients (heartbeat bob_online).1) as Hin
    by (vm_compute; right; left).
  assert (forallb (steady 1) [Close 0; Connection] = true) as Hst
    by reflexivity.
  split; [exact Hr|]. split; [exact Hin|]. split; [exact Hst|].
  exact (proj1 (responsive_connection_survives (heartbeat bob_online).1 1
                  [Close 0; Connection] Hr Hin Hst)).
Defined.

Lemma on_close_log_inv ws s x :
  x ∈ on_close_log ws s -> x = Uncaught TypeError.
Proof.
  unfold on_close_log.
  destruct (if_truthy (userId_of s ws)) as [u|]; [|by intros ?%elem_of_nil].
  destruct (bool_decide (JsMap.get (clients s) u = Some ws));
    [|by intros ?%elem_of_nil].
  destruct (to_string_throws u); [|by intros ?%elem_of_nil].
  by intros ->%list_elem_of_singleton.
Qed.

(** What one event does around a socket that is closed and out of
    [wss.clients]: it stays so, and no probe, no [terminate] and no
    [message] frame goes to it. *)
Lemma closed_step e s ws c :
  wf s -> sockets s !! ws = Some c -> readyState c = CLOSED ->
  ws ∉ wss_clients s ->
  (exists c', sockets (step e s).1 !! ws = Some c' /\ readyState c' = CLOSED) /\
  (ws ∉ wss_clients (step e s).1) /\
  (forall x, x ∈ (step e s).2 ->
     x <> Ping ws /\ x <> Terminate ws /\ forall p, x <> Send ws (Message p)).
Proof.
  intros Hwf Hc Hr Hnin. destruct e as [|ws' parsed|ws'|ws'|]; simpl.
  - split_and!.
    + exists c. split; [|done]. rewrite lookup_insert_ne; [done|].
      assert (ws < next_socket s) by (apply (wf_fresh s Hwf); by eexists). lia.
    + intros [?| ->%list_elem_of_singleton]%elem_of_app; [done|].
      assert (next_socket s < next_socket s)
        by (apply (wf_fresh s Hwf); by eexists). lia.
    + by intros x ?%elem_of_nil.
  - split_and!.
    + destruct (on_frame_inv ws' parsed s)
        as [->|(msg & v & _ & _ & _ & ->)]; [by exists c|].
      simpl. destruct (decide (ws = ws')) as [<-|Hne].
      * rewrite lookup_alter_eq, Hc. simpl. by eexists.
      * rewrite lookup_alter_ne by done. by exists c.
    + by destruct (on_frame_inv ws' parsed s)
        as [->|(msg & v & _ & _ & _ & ->)].
    + assert (is_open s ws = false) as Hopen.
      { unfold is_open. rewrite Hc. apply bool_decide_eq_false. by rewrite Hr. }
      intros x Hx.
      destruct (on_frame_calls ws' parsed s)
        as [(f & Hf & Hout)|(msg & t & p & dest & _ & _ & _ & _ & _ & Hd
                             & Hout)]; rewrite Hout in Hx.
      * apply list_elem_of_singleton in Hx as ->.
        split_and!; try done. intros p [= _ ->]. by simpl in Hf.
      * apply elem_of_cons in Hx as [-> | ->%list_elem_of_singleton].
        -- split_and!; try done. intros p' [= <- _]. congruence.
        -- split_and!; done.
  - split_and!.
    + destruct (decide (ws = ws')) as [<-|Hne].
      * rewrite lookup_alter_eq, Hc. simpl. by eexists.
      * rewrite lookup_alter_ne by done. by exists c.
    + done.
    + by intros x ?%elem_of_nil.
  - rewrite on_close_sockets. split_and!.
    + simpl. destruct (decide (ws = ws')) as [<-|Hne].
      * rewrite lookup_alter_eq, Hc. simpl. by eexists.
      * rewrite lookup_alter_ne by done. by exists c.
    + assert (wss_clients (on_close ws' (transport_closed ws' s))
              = wss_clients (transport_closed ws' s)) as ->.
      { unfold on_close.
        destruct (if_truthy (userId_of (transport_closed ws' s) ws'));
          [|done].
        by case_bool_decide. }
      simpl. by intros [_ ?]%list_elem_of_filter.
    + by intros x ->%on_close_log_inv.
  - destruct (heartbeat_fold_unvisited ws (wss_clients s) s [] Hnin)
      as (Hs & _). fold (heartbeat s) in Hs.
    destruct (heartbeat_same_identity s) as (_ & Hw & _).
    split_and!.
    + exists c. by rewrite Hs.
    + by rewrite Hw.
    + intros x Hx.
      destruct (heartbeat_calls_inv s x (wf_nodup s Hwf) Hx)
        as (ws' & Hin & [->| ->]); split_and!; try done; intros [= <-]; done.
Qed.

Lemma closed_run evs s ws c :
  wf s -> sockets s !! ws = Some c -> readyState c = CLOSED ->
  ws ∉ wss_clients s ->
  forall x, x ∈ (run evs s).2 ->
    x <> Ping ws /\ x <> Terminate ws /\ forall p, x <> Send ws (Message p).
Proof.
  revert s c. induction evs as [|e evs IH]; intros s c Hwf Hc Hr Hnin x Hx.
  - by apply elem_of_nil in Hx.
  - rewrite run_cons in Hx. simpl in Hx.
    destruct (closed_step e s ws c Hwf Hc Hr Hnin)
      as ((c' & Hc' & Hr') & Hnin' & Hout).
    apply elem_of_app in Hx as [Hx|Hx]; [by apply Hout|].
    by apply (IH (step e s).1 c' (step_wf e s Hwf) Hc' Hr' Hnin').
Qed.

(** X17 (after the close). Once the close event of a socket has been
    handled, no later event makes the server probe the socket, terminate it
    or hand it a [message] frame, even while stale registry entries still
    point at it. *)
Theorem closed_connection_left_alone
    (s : server) (ws : nat) (evs : list event) :
  reachable s -> is_Some (sockets s !! ws) ->
  let out := (run evs (step (Close ws) s).1).2 in
  (Ping ws ∉ out) /\ (Terminate ws ∉ out) /\
  forall p, Send ws (Message p) ∉ out.
Proof.
  intros Hr [c Hc] out. pose proof (reachable_wf s Hr) as Hwf.
  assert (wf (step (Close ws) s).1) as Hwf1 by (by apply step_wf).
  assert (sockets (step (Close ws) s).1 !! ws = Some (set_readyState CLOSED c))
    as Hc1.
  { simpl. rewrite on_close_sockets. simpl. by rewrite lookup_alter_eq, Hc. }
  assert (ws ∉ wss_clients (step (Close ws) s).1) as Hnin.
  { simpl.
    assert (wss_clients (on_close ws (transport_closed ws s))
            = wss_clients (transport_closed ws s)) as ->.
    { unfold on_close.
      destruct (if_truthy (userId_of (transport_closed ws s) ws)); [|done].
      by case_bool_decide. }
    simpl. by intros [? _]%list_elem_of_filter. }
  pose proof (closed_run evs _ ws _ Hwf1 Hc1 eq_refl Hnin) as H.
  split_and!.
  - intros Hx. by destruct (H _ Hx) as (? & _).
  - intros Hx. by destruct (H _ Hx) as (_ & ? & _).
  - intros p Hx. destruct (H _ Hx) as (_ & _ & Hp). by apply (Hp p).
Qed.

Lemma closed_connection_left_alone_witness :
  reachable alice_then_bob /\ is_Some (sockets alice_then_bob !! 0) /\
  (Terminate 0
   ∉ (run [Connection;
           Frame 1 (Normal (send_msg 9 (JStr "alice") (JStr "Zm9v")));
           Tick; Tick]
        (step (Close 0) alice_then_bob).1).2).
Proof.
  assert (reachable alice_then_bob) as Hr by (eexists; reflexivity).
  assert (is_Some (sockets alice_then_bob !! 0)) as Hex
    by (vm_compute; eexists; reflexivity).
  split; [exact Hr|]. split; [exact Hex|].
  exact (proj1 (proj2 (closed_connection_left_alone alice_then_bob 0
                         [Connection;
                          Frame 1 (Normal (send_msg 9 (JStr "alice")
                                             (JStr "Zm9v")));
                          Tick; Tick] Hr Hex))).
Defined.

(** ** Identify, then receive *)

(** X18 (a registered connection receives). After a connection [B] that is
    open has identified under a truthy userId [U], and as long as [B] has
    not closed, no tick has run and no other connection has identified under
    [U], a [send] frame of any connection whose [to] is the same key as [U]
    and whose payload is truthy is delivered to [B] and acknowledged with
    [sent] to the sender. *)
Theorem identified_connection_receives
    (s : server) (A B : nat) (mB msg U U' P : jsval) (evs : list event) :
  reachable s -> is_open s B = true ->
  identify_frame mB U -> truthy U = true ->
  forallb (fun e => negb (disturbs B U e)) evs = true ->
  forallb (steady B) evs = true ->
  send_frame msg U' P -> same_value_zero U U' = true -> truthy P = true ->
  let s1 := (run evs (on_frame B (Normal mB) s).1).1 in
  on_frame A (Normal msg) s1
  = (s1, [Send B (Message P); Send A (Sent U')]).
Proof.
  intros Hr Hopen HmB HU Hund Hst Hmsg Hsame HP s1.
  pose proof (reachable_wf s Hr) as Hwf.
  assert (wf (on_frame B (Normal mB) s).1) as Hwf0 by (by apply on_frame_wf).
  unfold is_open in Hopen.
  destruct (sockets s !! B) as [c|] eqn:Hc; [|done].
  apply bool_decide_eq_true in Hopen.
  assert (sockets (on_frame B (Normal mB) s).1 !! B
          = Some (set_userId (Some U) c)) as Hc0.
  { rewrite (on_frame_identify B mB U s HmB HU). simpl.
    by rewrite lookup_alter_eq, Hc. }
  assert (JsMap.get (clients (on_frame B (Normal mB) s).1) U = Some B) as Hg0.
  { rewrite (on_frame_identify B mB U s HmB HU). simpl. apply get_set_same. }
  destruct (steady_run evs _ B _ Hwf0 Hst Hc0) as (_ & c1 & Hc1 & Hr1 & _).
  simpl in Hr1.
  pose proof (undisturbed_run evs _ B U Hund Hg0) as Hg1.
  fold s1 in Hc1, Hg1.
  rewrite (get_same_key _ _ _ Hsame) in Hg1.
  assert (truthy U' = true) as HU'
    by (by rewrite <- (truthy_same_value_zero _ _ Hsame)).
  rewrite (on_frame_send A msg U' P s1 Hmsg HU' HP).
  unfold do_send, is_open. rewrite Hg1, Hc1.
  rewrite bool_decide_eq_true_2; [done|congruence].
Qed.

Lemma identified_connection_receives_witness :
  reachable (run [Connection; Connection] init).1 /\
  is_open (run [Connection; Connection] init).1 1 = true /\
  identify_frame (identify_msg 7 (JStr "bob")) (JStr "bob") /\
  truthy (JStr "bob") = true /\
  forallb (fun e => negb (disturbs 1 (JStr "bob") e))
    [Frame 0 (Normal (identify_msg 8 (JStr "alice"))); Pong 1] = true /\
  forallb (steady 1)
    [Frame 0 (Normal (identify_msg 8 (JStr "alice"))); Pong 1] = true /\
  send_frame (send_msg 9 (JStr "bob") (JStr "Zm9v")) (JStr "bob") (JStr "Zm9v") /\
  same_value_zero (JStr "bob") (JStr "bob") = true /\
  truthy (JStr "Zm9v") = true /\
  (on_frame 0 (Normal (send_msg 9 (JStr "bob") (JStr "Zm9v")))
     (run [Frame 0 (Normal (identify_msg 8 (JStr "alice"))); Pong 1]
        (on_frame 1 (Normal (identify_msg 7 (JStr "bob")))
           (run [Connection; Connection] init).1).1).1).2
  = [Send 1 (Message (JStr "Zm9v")); Send 0 (Sent (JStr "bob"))].
Proof.
  assert (reachable (run [Connection; Connection] init).1) as Hr
    by (eexists; reflexivity).
  assert (is_open (run [Connection; Connection] init).1 1 = true) as Hopen
    by (vm_compute; reflexivity).
  assert (identify_frame (identify_msg 7 (JStr "bob")) (JStr "bob")) as HmB
    by (split; reflexivity).
  assert (send_frame (send_msg 9 (JStr "bob") (JStr "Zm9v"))
            (JStr "bob") (JStr "Zm9v")) as Hmsg by (repeat split; reflexivity).
  split; [exact Hr|]. split; [exact Hopen|]. split; [exact HmB|].
  split; [reflexivity|]. split; [reflexivity|]. split; [reflexivity|].
  split; [exact Hmsg|]. split; [reflexivity|]. split; [reflexivity|].
  rewrite (identified_connection_receives _ 0 1 _ _ (JStr "bob") (JStr "bob")
             (JStr "Zm9v")
             [Frame 0 (Normal (identify_msg 8 (JStr "alice"))); Pong 1]
             Hr Hopen HmB eq_refl eq_refl eq_refl Hmsg eq_refl eq_refl).
  reflexivity.
Defined.

(** ** The registry over admissible runs *)

Lemma admissible_step_registered e s :
  wf s -> admissible s e = true ->
  (forall k ws, JsMap.get (clients s) k = Some ws ->
     exists u, userId_of s ws = Some u) ->
  forall k ws, JsMap.get (clients (step e s).1) k = Some ws ->
    exists u, userId_of (step e s).1 ws = Some u.
Proof.
  intros Hwf Hadm Hinv k ws. destruct e as [|ws' parsed|ws'|ws'|]; simpl in *.
  - intros Hget. destruct (Hinv k ws Hget) as [u Hu]. exists u.
    unfold userId_of in *. simpl. rewrite lookup_insert_ne; [done|].
    assert (ws < next_socket s)
      by (apply (wf_fresh s Hwf); by apply (userId_of_is_Some s ws u)).
    lia.
  - apply bool_decide_eq_true in Hadm. apply (wf_live s Hwf) in Hadm.
    destruct (on_frame_inv ws' parsed s)
      as [->|(msg & v & _ & _ & _ & ->)]; [by apply Hinv|].
    simpl. intros Hget. destruct (decide (ws = ws')) as [->|Hne].
    + exists v. by apply userId_of_do_identify.
    + destruct (same_value_zero v k) eqn:E.
      * rewrite <- (get_same_key _ _ _ E), get_set_same in Hget. congruence.
      * rewrite get_set_other in Hget by done.
        destruct (Hinv k ws Hget) as [u Hu]. exists u.
        by rewrite <- (userId_of_do_identify_other ws' ws v s Hne) in Hu.
  - intros Hget. destruct (Hinv k ws Hget) as [u Hu]. exists u.
    by rewrite (same_identity_userId_of _ _ _ (on_pong_same_identity ws' s)).
  - intros Hget. rewrite userId_of_on_close, userId_of_transport_closed.
    apply (Hinv k). revert Hget. unfold on_close.
    destruct (if_truthy (userId_of (transport_closed ws' s) ws')) as [u|];
      [|done].
    destruct (bool_decide (JsMap.get _ u = Some ws')); [|done].
    simpl. apply get_delete_Some.
  - destruct (heartbeat_same_identity s) as (Hc & _). rewrite Hc.
    intros Hget. destruct (Hinv k ws Hget) as [u Hu]. exists u.
    by rewrite (same_identity_userId_of _ _ _ (heartbeat_same_identity s)).
Qed.

Lemma admissible_run_registered evs s :
  wf s -> admissible_run evs s = true ->
  (forall k ws, JsMap.get (clients s) k = Some ws ->
     exists u, userId_of s ws = Some u) ->
  forall k ws, JsMap.get (clients (run evs s).1) k = Some ws ->
    exists u, userId_of (run evs s).1 ws = Some u.
Proof.
  revert s. induction evs as [|e evs IH]; intros s Hwf Hadm Hinv; [done|].
  simpl in Hadm. apply andb_true_iff in Hadm as [He Hadm].
  rewrite run_cons. simpl.
  apply IH; [by apply step_wf|done|by apply admissible_step_registered].
Qed.

(** X14 (who is in the registry). In every state that admissible events
    lead to (frames, pongs and close events only from sockets in
    [wss.clients]), each registry entry has a truthy key and points at an
    existing socket whose connection is Identified. *)
Theorem registry_holds_identified_connections
    (s : server) (k : jsval) (ws : nat) :
  live_reachable s -> JsMap.get (clients s) k = Some ws ->
  truthy k = true /\
  exists c u, sockets s !! ws = Some c /\ userId c = Some u /\
              truthy u = true.
Proof.
  intros (evs & Hadm & <-) Hget.
  pose proof (run_wf evs init init_wf) as Hwf. split.
  - destruct (get_Some_key _ _ _ Hget) as (k' & Hin & Hk').
    rewrite <- (truthy_same_value_zero _ _ Hk').
    by apply (proj1 (Forall_forall _ _) (wf_keys _ Hwf)).
  - assert (forall k ws, JsMap.get (clients init) k = Some ws ->
                exists u, userId_of init ws = Some u) as Hinit
      by (intros ? ? H; discriminate H).
    destruct (admissible_run_registered evs init init_wf Hadm Hinit k ws Hget)
      as [u Hu].
    unfold userId_of in Hu.
    destruct (sockets (run evs init).1 !! ws) as [c|] eqn:Hc; [|done].
    exists c, u. split_and!; [done|done|]. by apply (wf_userId _ Hwf ws c u).
Qed.

Lemma registry_holds_identified_connections_witness :
  live_reachable alice_then_bob /\
  JsMap.get (clients alice_then_bob) (JStr "alice") = Some 0 /\
  truthy (JStr "alice") = true /\
  exists c u, sockets alice_then_bob !! 0 = Some c /\ userId c = Some u /\
              truthy u = true.
Proof.
  assert (live_reachable alice_then_bob) as Hr
    by (eexists; split; [|reflexivity]; vm_compute; reflexivity).
  assert (JsMap.get (clients alice_then_bob) (JStr "alice") = Some 0) as Hget
    by reflexivity.
  split; [exact Hr|]. split; [exact Hget|].
  exact (registry_holds_identified_connections alice_then_bob (JStr "alice") 0
           Hr Hget).
Defined.

(** X19 (nothing for the unidentified). In every state that admissible
    events lead to, a connection that has not identified is in no registry
    entry, and no frame, from whatever sender, makes the server hand it a
    [message] frame. *)
Theorem unidentified_connection_receives_nothing
    (s : server) (ws : nat) :
  live_reachable s -> userId_of s ws = None ->
  (forall k, JsMap.get (clients s) k <> Some ws) /\
  (forall sender parsed p,
     Send ws (Message p) ∉ (on_frame sender parsed s).2).
Proof.
  intros (evs & Hadm & <-) Hun.
  assert (forall k, JsMap.get (clients (run evs init).1) k <> Some ws) as Hreg.
  { intros k Hget.
    assert (forall k ws, JsMap.get (clients init) k = Some ws ->
              exists u, userId_of init ws = Some u) as Hinit
      by (intros ? ? H; discriminate H).
    destruct (admissible_run_registered evs init init_wf Hadm Hinit k ws Hget)
      as [u Hu].
    congruence. }
  split; [done|]. intros sender parsed p Hin.
  destruct (on_frame_calls sender parsed (run evs init).1)
    as [(f & Hf & Hout)|(msg & t & p' & dest & _ & _ & _ & _ & Hget & _
                         & Hout)]; rewrite Hout in Hin.
  - apply list_elem_of_singleton in Hin. by simplify_eq.
  - apply elem_of_cons in Hin as [Hin|Hin];
      [|by apply list_elem_of_singleton in Hin].
    simplify_eq. by apply (Hreg t).
Qed.

Lemma unidentified_connection_receives_nothing_witness :
  live_reachable bob_online /\ userId_of bob_online 0 = None /\
  (forall k, JsMap.get (clients bob_online) k <> Some 0).
Proof.
  assert (live_reachable bob_online) as Hr
    by (eexists; split; [|reflexivity]; vm_compute; reflexivity).
  assert (userId_of bob_online 0 = None) as Hun by (vm_compute; reflexivity).
  split; [exact Hr|]. split; [exact Hun|].
  exact (proj1 (unidentified_connection_receives_nothing bob_online 0 Hr Hun)).
Defined.

Lemma get_key_inherited_witness :
  Forall (fun req => KeyDirectory.req_userId req <> Some "__proto__")
    [KeyDirectory.register_req "bob" "QUJD"] /\
  KeyDirectory.inherited "toString" = true /\
  Forall (fun req => KeyDirectory.req_userId req <> Some "toString")
    [KeyDirectory.register_req "bob" "QUJD"] /\
  KeyDirectory.get_key "toString"
    (KeyDirectory.register_all [KeyDirectory.register_req "bob" "QUJD"]
       KeyDirectory.publicKeys_init)
  = {| KeyDirectory.status := 200;
       KeyDirectory.json :=
         KeyDirectory.KeyBody "toString" (KeyDirectory.Builtin "toString") |}.
Proof.
  assert (Forall (fun req => KeyDirectory.req_userId req <> Some "__proto__")
            [KeyDirectory.register_req "bob" "QUJD"]) as Hp
    by (repeat constructor; discriminate).
  assert (KeyDirectory.inherited "toString" = true) as Hi
    by (vm_compute; reflexivity).
  assert (Forall (fun req => KeyDirectory.req_userId req <> Some "toString")
            [KeyDirectory.register_req "bob" "QUJD"]) as Hall
    by (repeat constructor; discriminate).
  split; [exact Hp|]. split; [exact Hi|]. split; [exact Hall|].
  exact (get_key_inherited [KeyDirectory.register_req "bob" "QUJD"] "toString"
           Hp Hi Hall).
Defined.
